(** * Tree-of-thoughts breadth-first search: [src/tot/methods/bfs.py]

    A shallow embedding of the search-loop controller and of its helper
    functions, followed by the properties of the specification that concern
    them.

    Conventions of the embedding.
    - A candidate is a Python [str], embedded as [string]; a score is a Python
      number, embedded as an exact rational [Q].  Scores are compared, stored
      and returned as they are.  Only the sampling selection computes with
      them; there the rationals stand for NumPy's doubles, whose rounding,
      overflow and conversion of large integers are outside the embedding, so
      that nothing below is stated about what that computation yields on a
      given input: only that it writes nothing but the random state, and how
      many indices it gives when it gives any.
    - The module-level callable [gpt], the task's [value_cache] and NumPy's
      global random state are the mutable objects the code touches.  They are
      gathered in a [World] that every operation threads explicitly.
    - A Python exception is a [Raise e] result; the world reached when the
      exception was raised is kept, as the mutations made before it persist.
    - The task object and the model backend are collaborators that live
      outside this file: the task is a record of pure functions, the backend
      an oracle that answers a request knowing the requests issued so far. *)

From Stdlib Require Import QArith Qabs Lqa.
From stdpp Require Import gmap strings list sorting.

(** ** Exceptions and results *)

Inductive PyError : Type :=
| ValueError (msg : string)
| IndexError (msg : string)
| UnboundLocalError (var : string)
| NameError (var : string)
| BackendError (msg : string).

Inductive result (A : Type) : Type :=
| Ok (a : A)
| Raise (e : PyError).
Arguments Ok {A} a.
Arguments Raise {A} e.

(** ** The mutable world *)

(** One request to the model backend: [gpt(prompt, n=.., stop=..)], together
    with the keyword arguments [model] and [temperature] bound by the latest
    [partial] (none before the first [solve] or [naive_solve]). *)
Record GptCall : Type := mkCall {
  call_prompt : string;
  call_n : Z;
  call_stop : option string;
  call_bound : option (string * Q)
}.

Record World : Type := mkWorld {
  value_cache : gmap string Q;      (* task.value_cache *)
  gpt_bound : option (string * Q);  (* keywords of the global [gpt] partial *)
  gpt_log : list GptCall;           (* requests issued so far, oldest first *)
  rng_used : nat                    (* uniform variates drawn so far *)
}.

Definition set_value_cache (c : gmap string Q) (w : World) : World :=
  mkWorld c (gpt_bound w) (gpt_log w) (rng_used w).
Definition set_gpt_bound (b : option (string * Q)) (w : World) : World :=
  mkWorld (value_cache w) b (gpt_log w) (rng_used w).
Definition set_gpt_log (l : list GptCall) (w : World) : World :=
  mkWorld (value_cache w) (gpt_bound w) l (rng_used w).
Definition set_rng_used (n : nat) (w : World) : World :=
  mkWorld (value_cache w) (gpt_bound w) (gpt_log w) n.

(** ** State-and-exception monad *)

Definition M (A : Type) : Type := World -> result A * World.

Definition ret {A} (a : A) : M A := fun w => (Ok a, w).
Definition raise {A} (e : PyError) : M A := fun w => (Raise e, w).
Definition bind {A B} (m : M A) (k : A -> M B) : M B :=
  fun w => match m w with
           | (Ok a, w') => k a w'
           | (Raise e, w') => (Raise e, w')
           end.

Notation "'let*' x ':=' m 'in' k" := (bind m (fun x => k))
  (at level 10, x name, m at level 100, k at level 200).

Definition get_world : M World := fun w => (Ok w, w).

(** [task.value_cache[k] = v]. *)
Definition cache_store (k : string) (v : Q) : M unit :=
  fun w => (Ok tt, set_value_cache (<[k := v]> (value_cache w)) w).

(** [[f(a) for a in l]] where [f] has effects: left to right, stopping at the
    first exception. *)
Fixpoint map_m {A B} (f : A -> M B) (l : list A) : M (list B) :=
  match l with
  | [] => ret []
  | a :: l' => let* b := f a in let* bs := map_m f l' in ret (b :: bs)
  end.

(** [l[i]] for a non-negative index [i]. *)
Definition py_index {A} (l : list A) (i : nat) : M A :=
  match l !! i with
  | Some a => ret a
  | None => raise (IndexError "list index out of range")
  end.

(** [l[:n]]: the first [n] items, or all but the last [-n] when [n < 0]. *)
Definition py_slice_to {A} (l : list A) (n : Z) : list A :=
  if (0 <=? n)%Z then take (Z.to_nat n) l
  else take (length l - Z.to_nat (- n)) l.

(** ** Strings *)

Definition newline_char : Ascii.ascii := Ascii.ascii_of_nat 10.
Definition newline : string := String newline_char EmptyString.

(** [s.split('\n')]: the maximal newline-free segments of [s], empty ones
    included; [acc] holds the current segment. *)
Fixpoint split_from (acc : string) (s : string) : list string :=
  match s with
  | EmptyString => [acc]
  | String c s' =>
      if Ascii.eqb c newline_char then acc :: split_from EmptyString s'
      else split_from (acc +:+ String c EmptyString) s'
  end.
Definition split_newline (s : string) : list string := split_from EmptyString s.

(** The one-character strings of [s], as iterating over a [str] yields them. *)
Fixpoint chars (s : string) : list string :=
  match s with
  | EmptyString => []
  | String c s' => String c EmptyString :: chars s'
  end.

(** ** Numbers *)

(** [sum(values)], in exact arithmetic: no rounding and no overflow to an
    infinity, which the additions of Python floats have. *)
Definition py_sum (values : list Q) : Q := fold_left Qplus values 0%Q.

(** [a < b] on scores. *)
Definition Qltb (a b : Q) : bool := negb (Qle_bool b a).

(** [np.array(values) / total]: element-wise division, in exact arithmetic.
    Dividing by zero raises nothing: it leaves [nan] or an infinity in the
    array, which [None] stands for.  The overflow, underflow and signed zeros of
    float64 division, and the object arrays NumPy makes of integers beyond 64
    bits, are not embedded. *)
Definition np_divide (values : list Q) (total : Q) : list (option Q) :=
  map (fun v => if Qeq_bool total 0 then None else Some (v / total)%Q) values.

(** ** Collaborators *)

(** The task abstraction.  Its [value_cache] attribute is in the [World]. *)
Record Task (Input : Type) : Type := mkTask {
  get_input : Z -> Input;
  standard_prompt_wrap : Input -> string -> string;
  cot_prompt_wrap : Input -> string -> string;
  propose_prompt_wrap : Input -> string -> string;
  value_prompt_wrap : Input -> string -> string;
  vote_prompt_wrap : Input -> list string -> string;
  value_outputs_unwrap : Input -> string -> list string -> Q;
  vote_outputs_unwrap : list string -> nat -> list Q;
  steps : Z;
  stops : list (option string)
}.
Arguments get_input {Input} _ _.
Arguments standard_prompt_wrap {Input} _ _ _.
Arguments cot_prompt_wrap {Input} _ _ _.
Arguments propose_prompt_wrap {Input} _ _ _.
Arguments value_prompt_wrap {Input} _ _ _.
Arguments vote_prompt_wrap {Input} _ _ _.
Arguments value_outputs_unwrap {Input} _ _ _ _.
Arguments vote_outputs_unwrap {Input} _ _ _.
Arguments steps {Input} _.
Arguments stops {Input} _.

(** The run configuration [args]. *)
Record Args : Type := mkArgs {
  backend : string;
  temperature : Q;
  method_generate : string;
  method_evaluate : string;
  method_select : string;
  n_generate_sample : Z;
  n_evaluate_sample : Z;
  n_select_sample : Z;
  prompt_sample : string
}.

(** One record of the trace: the dict appended to [infos] at line 140. *)
Record StepInfo (Input : Type) : Type := mkInfo {
  info_step : nat;
  info_x : Input;
  info_ys : list string;
  info_new_ys : list string;
  info_values : list Q;
  info_select_new_ys : list string
}.
Arguments mkInfo {Input} _ _ _ _ _ _.
Arguments info_step {Input} _.
Arguments info_x {Input} _.
Arguments info_ys {Input} _.
Arguments info_new_ys {Input} _.
Arguments info_values {Input} _.
Arguments info_select_new_ys {Input} _.

(** The local variables of [solve] that live across iterations of its loop.
    [new_ys], [values] and [select_ids] are only assigned inside branches, so
    they may be unbound, or still hold what the previous iteration left. *)
Record Locals (Input : Type) : Type := mkLocals {
  l_ys : list string;
  l_infos : list (StepInfo Input);
  l_new_ys : option (list string);
  l_values : option (list Q);
  l_select_ids : option (list nat)
}.
Arguments mkLocals {Input} _ _ _ _ _.
Arguments l_ys {Input} _.
Arguments l_infos {Input} _.
Arguments l_new_ys {Input} _.
Arguments l_values {Input} _.
Arguments l_select_ids {Input} _.

(** The second component of what [solve] and [naive_solve] return: a dict
    that holds the trace under the key ['steps'], or the empty dict [{}]. *)
Definition Info (Input : Type) : Type := option (list (StepInfo Input)).

(** The model backend ([tot.models.gpt]): given the requests already issued
    and a new request, it answers with completions or raises. *)
Definition Backend : Type := list GptCall -> GptCall -> result (list string).

(** The source of randomness behind [np.random]: the [k]-th uniform variate. *)
Definition Uniform : Type := nat -> Q.

Section Methods.
Context {Input : Type}.
Variable model : Backend.
Variable uniform : Uniform.

(** [gpt(prompt, n=n, stop=stop)] through the current global binding. *)
Definition gpt (prompt : string) (n : Z) (stop : option string) : M (list string) :=
  fun w =>
    let call := mkCall prompt n stop (gpt_bound w) in
    (model (gpt_log w) call, set_gpt_log (gpt_log w ++ [call]) w).

(** [get_value], lines 13-25. *)
Definition get_value (task : Task Input) (x : Input) (y : string)
    (n_evaluate_sample : Z) (cache_value : bool) : M Q :=
  let value_prompt := value_prompt_wrap task x y in
  let* w := get_world in
  match (if cache_value then value_cache w !! value_prompt else None) with
  | Some cached => ret cached
  | None =>
      let* value_outputs := gpt value_prompt n_evaluate_sample None in
      let value := value_outputs_unwrap task x y value_outputs in
      let* _ := (if cache_value then cache_store value_prompt value else ret tt) in
      ret value
  end.

(** [get_values], lines 29-41: the loop over [ys], with the accumulators
    [values] and [local_value_cache] as arguments. *)
Fixpoint get_values_loop (task : Task Input) (x : Input) (ys : list string)
    (n_evaluate_sample : Z) (cache_value : bool)
    (values : list Q) (local_value_cache : gmap string Q) : M (list Q) :=
  match ys with
  | [] => ret values
  | y :: ys' =>
      match local_value_cache !! y with
      | Some _ =>
          get_values_loop task x ys' n_evaluate_sample cache_value
            (values ++ [0%Q]) local_value_cache
      | None =>
          let* value := get_value task x y n_evaluate_sample cache_value in
          get_values_loop task x ys' n_evaluate_sample cache_value
            (values ++ [value]) (<[y := value]> local_value_cache)
      end
  end.

Definition get_values (task : Task Input) (x : Input) (ys : list string)
    (n_evaluate_sample : Z) (cache_value : bool) : M (list Q) :=
  get_values_loop task x ys n_evaluate_sample cache_value [] ∅.

(** [get_votes], lines 45-57. *)
Definition get_votes (task : Task Input) (x : Input) (ys : list string)
    (n_evaluate_sample : Z) : M (list Q) :=
  let vote_prompt := vote_prompt_wrap task x ys in
  let* vote_outputs := gpt vote_prompt n_evaluate_sample None in
  ret (vote_outputs_unwrap task vote_outputs (length ys)).

(** [get_proposals], lines 63-66. *)
Definition get_proposals (task : Task Input) (x : Input) (y : string)
    : M (list string) :=
  let propose_prompt := propose_prompt_wrap task x y in
  let* outputs := gpt propose_prompt 1 None in
  let* first := py_index outputs 0 in
  let proposals := split_newline first in
  ret (map (fun p => y +:+ p +:+ newline) proposals).

(** [get_samples], lines 71-82. *)
Definition get_samples (task : Task Input) (x : Input) (y : string)
    (n_generate_sample : Z) (prompt_sample : string) (stop : option string)
    : M (list string) :=
  let* prompt :=
    if String.eqb prompt_sample "standard" then ret (standard_prompt_wrap task x y)
    else if String.eqb prompt_sample "cot" then ret (cot_prompt_wrap task x y)
    else raise (ValueError ("prompt_sample " +:+ prompt_sample +:+ " not recognized")) in
  let* samples := gpt prompt n_generate_sample stop in
  ret (map (fun s => y +:+ s) samples).

(** *** Selection *)

(** [np.random.choice(a, size=size, p=p)] is NumPy, not code of this
    repository.  It is embedded after NumPy's implementation: the arguments
    are validated, [cdf = p.cumsum()] is normalised by its last entry, [size]
    uniform variates of [[0, 1)] are drawn, and each is mapped to an index by
    [cdf.searchsorted(u, side='right')].  The tolerance of the sum test is
    the square root of the double-precision machine epsilon, [2^-26].  The
    sums and comparisons are exact where NumPy's are in doubles, so the
    embedding gives the checks made, their order and the shape of the result,
    not the verdict of a check or the index drawn on a given input. *)
Fixpoint cumsum_from (acc : Q) (p : list Q) : list Q :=
  match p with
  | [] => []
  | q :: p' => (acc + q)%Q :: cumsum_from (acc + q)%Q p'
  end.
Definition cumsum (p : list Q) : list Q := cumsum_from 0%Q p.

(** On a sorted array, the insertion point to the right of [u] is the
    number of leading entries that do not exceed [u]. *)
Fixpoint searchsorted_right (cdf : list Q) (u : Q) : nat :=
  match cdf with
  | [] => 0
  | c :: cdf' => if Qle_bool c u then S (searchsorted_right cdf' u) else 0
  end.

Definition choice_atol : Q := (1 # 67108864)%Q.

Fixpoint finite_entries (p : list (option Q)) : option (list Q) :=
  match p with
  | [] => Some []
  | Some q :: p' => option_map (cons q) (finite_entries p')
  | None :: _ => None
  end.

(** [self.random_sample(n)]: the next [n] uniform variates. *)
Definition random_sample (n : nat) : M (list Q) :=
  fun w => (Ok (map uniform (seq (rng_used w) n)),
            set_rng_used (rng_used w + n) w).

Definition np_random_choice (a : list nat) (size : Z) (p : list (option Q))
    : M (list nat) :=
  let pop_size := length a in
  if Nat.eqb pop_size 0 && negb (size =? 0)%Z
  then raise (ValueError "'a' cannot be empty unless no samples are taken")
  else if negb (Nat.eqb (length p) pop_size)
  then raise (ValueError "'a' and 'p' must have same size")
  else match finite_entries p with
  | None => raise (ValueError "probabilities contain NaN")
  | Some p =>
      let p_sum := py_sum p in
      if existsb (fun q => Qltb q 0) p
      then raise (ValueError "probabilities are not non-negative")
      else if Qltb choice_atol (Qabs (p_sum - 1))
      then raise (ValueError "probabilities do not sum to 1")
      else if (size <? 0)%Z
      then raise (ValueError "negative dimensions are not allowed")
      else
        let cdf := cumsum p in
        let cdf := map (fun c => (c / List.last cdf 0)%Q) cdf in
        let* uniform_samples := random_sample (Z.to_nat size) in
        let idx := map (searchsorted_right cdf) uniform_samples in
        map_m (py_index a) idx
  end.

(** [sorted(.., key=.., reverse=True)] on items paired with their keys: a
    stable sort by decreasing key, so that items with equal keys keep their
    original order. *)
Fixpoint insert_desc (k : Q) (i : nat) (l : list (Q * nat)) : list (Q * nat) :=
  match l with
  | [] => [(k, i)]
  | (k', j) :: l' =>
      if Qltb k k' then (k', j) :: insert_desc k i l' else (k, i) :: l
  end.
Fixpoint sort_desc (l : list (Q * nat)) : list (Q * nat) :=
  match l with
  | [] => []
  | (k, i) :: l' => insert_desc k i (sort_desc l')
  end.

(** A local variable of [solve] that may not have been assigned yet. *)
Definition load_local {A} (name : string) (v : option A) : M A :=
  match v with
  | Some a => ret a
  | None => raise (UnboundLocalError name)
  end.

(** Lines 127-128, the sampling selection. *)
Definition select_sample (ids : list nat) (values : list Q) (n_select_sample : Z)
    : M (list nat) :=
  let ps := np_divide values (py_sum values) in
  np_random_choice ids n_select_sample ps.

(** Line 131, the greedy selection.  [values] is read inside the key function,
    once per index, before any comparison is made. *)
Definition select_greedy (ids : list nat) (values : option (list Q))
    (n_select_sample : Z) : M (list nat) :=
  let key (i : nat) : M Q :=
    match values with
    | Some values => py_index values i
    | None => raise (NameError "values")
    end in
  let* keys := map_m key ids in
  ret (py_slice_to (map snd (sort_desc (zip keys ids))) n_select_sample).

(** *** The search loop *)

(** [gpt = partial(gpt, model=args.backend, temperature=args.temperature)]:
    keywords given to a [partial] of a [partial] replace the inner ones. *)
Definition rebind_gpt (args : Args) : M unit :=
  fun w => (Ok tt, set_gpt_bound (Some (backend args, temperature args)) w).

(** Lines 136-138: the pairs of [zip(new_ys, values)] are sorted, unzipped and
    unpacked into two names, which fails when there is no pair at all.  What
    is printed is not part of the embedding. *)
Definition log_step (to_print : bool) (new_ys : list string)
    (values : option (list Q)) : M unit :=
  if to_print then
    let* values := load_local "values" values in
    match zip new_ys values with
    | [] => raise (ValueError "not enough values to unpack (expected 2, got 0)")
    | _ :: _ => ret tt
    end
  else ret tt.

(** One iteration of the loop, lines 102-143. *)
Definition solve_step (args : Args) (task : Task Input) (x : Input)
    (to_print : bool) (step : nat) (st : Locals Input) : M (Locals Input) :=
  let ys := l_ys st in
  (* GENERATION *)
  let* nested :=
    if String.eqb (method_generate args) "sample" then
      let* l := map_m (fun y =>
                  let* stop := py_index (stops task) step in
                  get_samples task x y (n_generate_sample args)
                    (prompt_sample args) stop) ys in
      ret (Some l)
    else if String.eqb (method_generate args) "propose" then
      let* l := map_m (fun y => get_proposals task x y) ys in
      ret (Some l)
    else ret (option_map (map chars) (l_new_ys st)) in
  let* nested := load_local "new_ys" nested in
  let new_ys := concat nested in
  let ids := seq 0 (length new_ys) in
  (* EVALUATE *)
  let* values :=
    if String.eqb (method_evaluate args) "vote" then
      let* v := get_votes task x new_ys (n_evaluate_sample args) in ret (Some v)
    else if String.eqb (method_evaluate args) "value" then
      let* v := get_values task x new_ys (n_evaluate_sample args) true in
      ret (Some v)
    else ret (l_values st) in
  (* SELECTION *)
  let* select_ids :=
    if String.eqb (method_select args) "sample" then
      let* values := load_local "values" values in
      let* s := select_sample ids values (n_select_sample args) in ret (Some s)
    else if String.eqb (method_select args) "greedy" then
      let* s := select_greedy ids values (n_select_sample args) in ret (Some s)
    else ret (l_select_ids st) in
  let* select_ids := load_local "select_ids" select_ids in
  let* select_new_ys := map_m (py_index new_ys) select_ids in
  (* log *)
  let* _ := log_step to_print new_ys values in
  let* values := load_local "values" values in
  let info := mkInfo step x ys new_ys values select_new_ys in
  ret (mkLocals select_new_ys (l_infos st ++ [info])
         (Some new_ys) (Some values) (Some select_ids)).

(** [for step in range(..)]. *)
Fixpoint for_steps (body : nat -> Locals Input -> M (Locals Input))
    (range : list nat) (st : Locals Input) : M (Locals Input) :=
  match range with
  | [] => ret st
  | step :: range' => let* st' := body step st in for_steps body range' st'
  end.

(** [solve], lines 89-147. *)
Definition solve (args : Args) (task : Task Input) (idx : Z) (to_print : bool)
    : M (list string * Info Input) :=
  let* _ := rebind_gpt args in
  let x := get_input task idx in
  let st := mkLocals [EmptyString] [] None None None in
  let* st := for_steps (solve_step args task x to_print)
               (seq 0 (Z.to_nat (steps task))) st in
  ret (l_ys st, Some (l_infos st)).

(** [naive_solve], lines 149-155. *)
Definition naive_solve (args : Args) (task : Task Input) (idx : Z)
    (to_print : bool) : M (list string * Info Input) :=
  let* _ := rebind_gpt args in
  let x := get_input task idx in
  let* ys := get_samples task x EmptyString (n_generate_sample args)
               (prompt_sample args) None in
  ret (ys, None).

End Methods.

(** ** Notions used by the statements *)

(** The request that [gpt(prompt, n=n, stop=stop)] sends from world [w]. *)
Definition request (w : World) (prompt : string) (n : Z) (stop : option string)
    : GptCall :=
  mkCall prompt n stop (gpt_bound w).

(** The prompt [get_samples] renders for a recognised template mode. *)
Definition sample_prompt {Input} (task : Task Input) (x : Input) (y : string)
    (prompt_sample : string) : string :=
  if String.eqb prompt_sample "standard" then standard_prompt_wrap task x y
  else cot_prompt_wrap task x y.

(** The lines of a completion that are not empty. *)
Definition nonempty_lines (completion : string) : list string :=
  filter (fun line => line ≠ EmptyString) (split_newline completion).

(** The number of line terminators in a string. *)
Fixpoint count_newlines (s : string) : nat :=
  match s with
  | EmptyString => 0
  | String c s' =>
      (if Ascii.eqb c newline_char then 1 else 0) + count_newlines s'
  end.

(** The candidates of [ys] that did not occur earlier, [seen] listing those met
    before [ys]. *)
Fixpoint first_occurrences (seen ys : list string) : list string :=
  match ys with
  | [] => []
  | y :: ys' =>
      if bool_decide (y ∈ seen) then first_occurrences seen ys'
      else y :: first_occurrences (y :: seen) ys'
  end.

(** Duplicate suppression as the specification words it: the scores of the
    first occurrences, in order, are handed out to the positions of [ys]; a
    position that repeats an earlier candidate gets [0]. *)
Fixpoint spread_scores (seen ys : list string) (scores : list Q) : list Q :=
  match ys with
  | [] => []
  | y :: ys' =>
      if bool_decide (y ∈ seen) then 0%Q :: spread_scores seen ys' scores
      else match scores with
           | s :: scores' => s :: spread_scores (y :: seen) ys' scores'
           | [] => []
           end
  end.

(** The value strategy as the specification words it: only the first
    occurrences are scored, each by [get_value]. *)
Definition get_values_spec {Input} (model : Backend) (task : Task Input)
    (x : Input) (ys : list string) (n_evaluate_sample : Z) (cache_value : bool)
    : M (list Q) :=
  let* scores := map_m (fun y => get_value model task x y n_evaluate_sample cache_value)
                   (first_occurrences [] ys) in
  ret (spread_scores [] ys scores).

(** Index [i] is ranked before index [j]: its score is higher, or the scores
    are equal and [i] comes first. *)
Definition ranks_before (values : list Q) (i j : nat) : Prop :=
  ∃ a b, values !! i = Some a ∧ values !! j = Some b ∧
         (b < a ∨ (a == b ∧ (i < j)%nat))%Q.

(** The same order on items paired with their keys. *)
Definition pair_before (p q : Q * nat) : Prop :=
  (fst q < fst p)%Q ∨ (fst p == fst q ∧ (snd p < snd q)%nat)%Q.

(** The frontier on which step [i] of a trace starts: the single empty
    candidate, or what the step before selected. *)
Definition frontier_before {Input} (infos : list (StepInfo Input)) (i : nat)
    : list string :=
  match i with
  | O => [EmptyString]
  | S j => match infos !! j with
           | Some r => info_select_new_ys r
           | None => [EmptyString]
           end
  end.

(** What holds of every record of a trace: it carries its own index, the
    input, the frontier its step started from, and a selection drawn from its
    expanded set. *)
Definition trace_ok {Input} (x : Input) (infos : list (StepInfo Input)) : Prop :=
  forall i r, infos !! i = Some r ->
    info_step r = i /\ info_x r = x /\
    info_ys r = frontier_before infos i /\
    Forall (fun c => c ∈ info_new_ys r) (info_select_new_ys r).

(** A backend that honours its interface: it never raises and answers a
    request for [n] completions with [n] completions. *)
Definition honours_interface (model : Backend) : Prop :=
  forall log call, exists outs,
    model log call = Ok outs /\
    ((0 <= call_n call)%Z -> Z.of_nat (length outs) = call_n call).

(** A configuration under which no step of [solve] raises, whatever an
    interface-honouring backend answers: recognised generation and evaluation
    strategies with what they need from the task, greedy selection, and, when
    the steps are printed, a frontier that cannot become empty. *)
Definition runs_through {Input} (args : Args) (task : Task Input)
    (to_print : bool) : Prop :=
  (method_generate args = "propose" \/
   (method_generate args = "sample" /\
    (prompt_sample args = "standard" \/ prompt_sample args = "cot") /\
    (steps task <= Z.of_nat (length (stops task)))%Z)) /\
  (method_evaluate args = "value" \/
   (method_evaluate args = "vote" /\
    forall outs n, length (vote_outputs_unwrap task outs n) = n)) /\
  method_select args = "greedy" /\
  (to_print = true ->
   (1 <= n_select_sample args)%Z /\
   (method_generate args = "propose" \/ (1 <= n_generate_sample args)%Z)).



Definition selected (uniform : Uniform) (args : Args) (new_ys : list string)
    (values : list Q) (w : World) (select_ids : list nat) (w' : World) : Prop :=
  (method_select args = "sample" /\
   select_sample uniform (seq 0 (length new_ys)) values (n_select_sample args) w
     = (Ok select_ids, w')) \/
  (method_select args = "greedy" /\
   select_greedy (seq 0 (length new_ys)) (Some values) (n_select_sample args) w
     = (Ok select_ids, w')).


(** C2 as the specification states it, for one generation call: the
    candidates are [y] extended by each of the non-empty lines. *)
Definition proposal_lines_claim {Input} (model : Backend) (task : Task Input)
    (x : Input) (y : string) (w : World) (completion : string) : Prop :=
  model (gpt_log w) (request w (propose_prompt_wrap task x y) 1 None)
    = Ok [completion] ->
  exists candidates w',
    get_proposals model task x y w = (Ok candidates, w') /\
    length candidates = length (nonempty_lines completion) /\
    Forall (fun c => exists line, line <> EmptyString /\ c = y +:+ line +:+ newline)
      candidates.

(** ** A concrete task, backend and configuration *)

Definition demo_task : Task string :=
  mkTask string (fun _ => "X")
    (fun x y => "S:" +:+ x +:+ "|" +:+ y)
    (fun x y => "C:" +:+ x +:+ "|" +:+ y)
    (fun x y => "P:" +:+ x +:+ "|" +:+ y)
    (fun x y => "V:" +:+ x +:+ "|" +:+ y)
    (fun x ys => "T:" +:+ x +:+ "|" +:+ String.concat "," ys)
    (fun x y outs => inject_Z (Z.of_nat (String.length y)))
    (fun outs n => repeat 1%Q n)
    2 [None; None].

(** A backend that answers every request for [n] completions with [n] copies
    of [completion]. *)
Definition const_model (completion : string) : Backend :=
  fun _ call => Ok (repeat completion (Z.to_nat (call_n call))).

Definition half : Uniform := fun _ => (1 # 2)%Q.

Definition fresh_world : World := mkWorld ∅ None [] 0.

Definition demo_args : Args :=
  mkArgs "gpt-4" (7 # 10)%Q "propose" "value" "greedy" 3 2 1 "standard".

(** [demo_args] with an evaluation strategy that [solve] does not know. *)
Definition bad_evaluate_args : Args :=
  mkArgs "gpt-4" (7 # 10)%Q "propose" "best" "greedy" 3 2 1 "standard".

Definition two_lines : string := "a" +:+ newline +:+ "bb".

(** A completion of one line that ends with a line terminator. *)
Definition ended_line : string := "a" +:+ newline.

(** [demo_task] with no step to run. *)
Definition idle_task : Task string :=
  mkTask string (get_input demo_task)
    (standard_prompt_wrap demo_task) (cot_prompt_wrap demo_task)
    (propose_prompt_wrap demo_task) (value_prompt_wrap demo_task)
    (vote_prompt_wrap demo_task) (value_outputs_unwrap demo_task)
    (vote_outputs_unwrap demo_task) 0 [].

(** ** Notions used by the further properties *)

(** A relation between the world a computation starts from and the world it
    leaves, kept whatever the outcome, exceptions included. *)
Definition keeps {A} (R : World -> World -> Prop) (m : M A) : Prop :=
  forall w, R w (snd (m w)).

(** The two writes a run may make besides sending requests: a cache entry
    under a key that has none, and the drawing of uniform variates. *)
Definition keeps_store (R : World -> World -> Prop) : Prop :=
  forall k v w, value_cache w !! k = None -> R w (snd (cache_store k v w)).

Definition keeps_random (uniform : Uniform) (R : World -> World -> Prop) : Prop :=
  forall n, keeps R (random_sample uniform n).

(** No entry of the value cache is removed or changed. *)
Definition cache_grows (w w' : World) : Prop :=
  forall k v, value_cache w !! k = Some v -> value_cache w' !! k = Some v.

(** The requests sent are appended to the log, each with the keywords bound
    to [gpt], and that binding stays. *)
Definition requests_bound (w w' : World) : Prop :=
  gpt_bound w' = gpt_bound w /\
  exists sent, gpt_log w' = gpt_log w ++ sent /\
               Forall (fun call => call_bound call = gpt_bound w) sent.

Definition same_cache (w w' : World) : Prop := value_cache w' = value_cache w.

Definition same_rng (w w' : World) : Prop := rng_used w' = rng_used w.

(** The three dispatches of one iteration of [solve], lines 105-110, 117-122
    and 125-131, as [solve_step] has them. *)
Definition generate_block {Input} (model : Backend) (args : Args)
    (task : Task Input) (x : Input) (step : nat) (st : Locals Input)
    : M (option (list (list string))) :=
  if String.eqb (method_generate args) "sample" then
    let* l := map_m (fun y =>
                let* stop := py_index (stops task) step in
                get_samples model task x y (n_generate_sample args)
                  (prompt_sample args) stop) (l_ys st) in
    ret (Some l)
  else if String.eqb (method_generate args) "propose" then
    let* l := map_m (fun y => get_proposals model task x y) (l_ys st) in
    ret (Some l)
  else ret (option_map (map chars) (l_new_ys st)).

Definition evaluate_block {Input} (model : Backend) (args : Args)
    (task : Task Input) (x : Input) (st : Locals Input) (new_ys : list string)
    : M (option (list Q)) :=
  if String.eqb (method_evaluate args) "vote" then
    let* v := get_votes model task x new_ys (n_evaluate_sample args) in ret (Some v)
  else if String.eqb (method_evaluate args) "value" then
    let* v := get_values model task x new_ys (n_evaluate_sample args) true in
    ret (Some v)
  else ret (l_values st).

Definition select_block {Input} (uniform : Uniform) (args : Args)
    (st : Locals Input) (ids : list nat) (values : option (list Q))
    : M (option (list nat)) :=
  if String.eqb (method_select args) "sample" then
    let* values := load_local "values" values in
    let* s := select_sample uniform ids values (n_select_sample args) in ret (Some s)
  else if String.eqb (method_select args) "greedy" then
    let* s := select_greedy ids values (n_select_sample args) in ret (Some s)
  else ret (l_select_ids st).

(** [sep.join(segments)]. *)
Fixpoint join_with (sep : string) (segments : list string) : string :=
  match segments with
  | [] => EmptyString
  | [s] => s
  | s :: rest => s +:+ sep +:+ join_with sep rest
  end.

(** The string holds no line terminator. *)
Definition newline_free (s : string) : Prop := count_newlines s = 0%nat.

(** A backend that answers every request with no completion at all. *)
Definition silent_model : Backend := fun _ _ => Ok [].

(** A backend that fails on every request. *)
Definition failing_model : Backend := fun _ _ => Raise (BackendError "rate limit").

(** [demo_args] with the vote strategy. *)
Definition vote_args : Args :=
  mkArgs "gpt-4" (7 # 10)%Q "propose" "vote" "greedy" 3 2 1 "standard".

(** A world whose value cache holds one entry. *)
Definition cached_world : World :=
  mkWorld (<["V:X|old" := 5%Q]> ∅) None [] 0.

(** The locals of [solve] at a step that starts from an empty frontier. *)
Definition empty_frontier : Locals string := mkLocals [] [] None None None.

(** * Properties *)

(** ** The monad and the helpers *)

Lemma bind_ok {A B} (m : M A) (k : A -> M B) w a w' :
  m w = (Ok a, w') -> bind m k w = k a w'.
Proof. intros H. unfold bind. now rewrite H. Qed.

Lemma bind_inv {A B} (m : M A) (k : A -> M B) w b w2 :
  bind m k w = (Ok b, w2) ->
  exists a w1, m w = (Ok a, w1) /\ k a w1 = (Ok b, w2).
Proof.
  unfold bind. destruct (m w) as [[a|e] w1]; intros H.
  - exists a, w1. split; [reflexivity | exact H].
  - discriminate H.
Qed.

Lemma prefix_append (y s : string) : String.prefix y (y +:+ s) = true.
Proof.
  induction y as [|c y IH]; simpl.
  - now destruct s.
  - destruct (Ascii.ascii_dec c c) as [_|ne]; [exact IH | now destruct ne].
Qed.

Lemma string_eqb_neq (a b : string) : a <> b -> String.eqb a b = false.
Proof. intros H. now apply String.eqb_neq. Qed.

Lemma Qltb_lt (a b : Q) : Qltb a b = true <-> (a < b)%Q.
Proof.
  unfold Qltb. rewrite negb_true_iff, <- not_true_iff_false, Qle_bool_iff.
  split; [apply Qnot_le_lt | apply Qlt_not_le].
Qed.

Lemma Qltb_ge (a b : Q) : Qltb a b = false <-> (b <= a)%Q.
Proof.
  unfold Qltb. now rewrite negb_false_iff, Qle_bool_iff.
Qed.

(** A list that [map_m] walks without effects. *)
Lemma map_m_pure {A B} (f : A -> M B) (l : list A) (bs : list B) w :
  Forall2 (fun a b => f a w = (Ok b, w)) l bs ->
  map_m f l w = (Ok bs, w).
Proof.
  induction 1 as [|a b l bs Hab _ IH]; simpl; [reflexivity |].
  unfold bind. rewrite Hab, IH. reflexivity.
Qed.

Lemma py_index_run {A} (l : list A) i a w :
  l !! i = Some a -> py_index l i w = (Ok a, w).
Proof. intros H. unfold py_index. now rewrite H. Qed.

Lemma py_slice_to_nat {A} (l : list A) (count : nat) :
  py_slice_to l (Z.of_nat count) = take count l.
Proof.
  unfold py_slice_to. rewrite (proj2 (Z.leb_le 0 _)) by lia.
  now rewrite Nat2Z.id.
Qed.

(** ** Sorting by decreasing key *)

Lemma pair_before_trans (p q r : Q * nat) :
  pair_before p q -> pair_before q r -> pair_before p r.
Proof.
  unfold pair_before. intros [H1 | [H1 H1']] [H2 | [H2 H2']].
  - left. lra.
  - left. lra.
  - left. lra.
  - right. split; [lra | lia].
Qed.

Lemma insert_desc_perm k i l : Permutation (insert_desc k i l) ((k, i) :: l).
Proof.
  induction l as [|[k' j] l IH]; simpl; [reflexivity |].
  destruct (Qltb k k'); [| reflexivity].
  rewrite IH. apply perm_swap.
Qed.

Lemma sort_desc_perm l : Permutation (sort_desc l) l.
Proof.
  induction l as [|[k i] l IH]; simpl; [reflexivity |].
  now rewrite insert_desc_perm, IH.
Qed.

Lemma insert_desc_sorted k i l :
  StronglySorted pair_before l ->
  Forall (fun q => (i < snd q)%nat) l ->
  StronglySorted pair_before (insert_desc k i l).
Proof.
  induction 1 as [|[k' j] l Hsorted IH Hhead]; intros Hlater; simpl.
  - repeat constructor.
  - apply Forall_cons in Hlater as [Hij Hlater]. simpl in Hij.
    destruct (Qltb k k') eqn:Hcmp.
    + apply Qltb_lt in Hcmp. constructor; [now apply IH |].
      rewrite insert_desc_perm. constructor; [| exact Hhead].
      left. exact Hcmp.
    + apply Qltb_ge in Hcmp.
      assert (Hfirst : pair_before (k, i) (k', j)).
      { unfold pair_before. simpl. destruct (Qlt_le_dec k' k) as [Hlt | Hle].
        - now left.
        - right. split; [lra | exact Hij]. }
      constructor; [now constructor |].
      constructor; [exact Hfirst |].
      eapply Forall_impl; [exact Hhead |].
      intros r Hr. eapply pair_before_trans; eauto.
Qed.

Lemma sort_desc_sorted l :
  StronglySorted (fun p q : Q * nat => (snd p < snd q)%nat) l ->
  StronglySorted pair_before (sort_desc l).
Proof.
  induction 1 as [|[k i] l _ IH Hhead]; simpl; [constructor |].
  apply insert_desc_sorted; [exact IH |].
  now rewrite sort_desc_perm.
Qed.

Lemma seq_sorted start len : StronglySorted lt (seq start len).
Proof.
  revert start. induction len as [|len IH]; intros start; simpl; constructor.
  - apply IH.
  - apply Forall_forall. intros j Hj. apply elem_of_seq in Hj. lia.
Qed.

Lemma lookup_all_seq {A} (pre l : list A) :
  Forall2 (fun i a => (pre ++ l) !! i = Some a) (seq (length pre) (length l)) l.
Proof.
  revert pre. induction l as [|a l IH]; intros pre; simpl; constructor.
  - now rewrite list_lookup_middle.
  - specialize (IH (pre ++ [a])). rewrite length_app, Nat.add_1_r in IH.
    now rewrite <- app_assoc in IH.
Qed.

Lemma zip_sorted_snd (keys : list Q) (ids : list nat) :
  StronglySorted lt ids ->
  StronglySorted (fun p q : Q * nat => (snd p < snd q)%nat) (zip keys ids).
Proof.
  intros Hsorted. revert keys.
  induction Hsorted as [|i ids _ IH Hhead]; intros [|k keys]; simpl;
    try constructor.
  - apply IH.
  - apply Forall_forall. intros [k' j] Hin. simpl.
    apply elem_of_zip_r in Hin. simpl in Hin.
    rewrite Forall_forall in Hhead. now apply Hhead.
Qed.

Lemma zip_keys_lookup (values keys : list Q) (ids : list nat) :
  Forall2 (fun i k => values !! i = Some k) ids keys ->
  Forall (fun p : Q * nat => values !! snd p = Some (fst p)) (zip keys ids).
Proof. induction 1; simpl; constructor; auto. Qed.

Lemma ranking_sorted (values : list Q) (l : list (Q * nat)) :
  StronglySorted pair_before l ->
  Forall (fun p : Q * nat => values !! snd p = Some (fst p)) l ->
  StronglySorted (ranks_before values) (map snd l).
Proof.
  induction 1 as [|p l _ IH Hhead]; intros Hkeys; simpl; constructor.
  - apply IH. now apply Forall_cons in Hkeys as [_ ?].
  - apply Forall_cons in Hkeys as [Hp Hkeys].
    apply Forall_forall. intros j Hj.
    apply list_elem_of_fmap in Hj as (q & -> & Hq).
    rewrite Forall_forall in Hhead, Hkeys.
    exists (fst p), (fst q). split; [exact Hp |]. split; [now apply Hkeys |].
    now apply Hhead.
Qed.

Lemma lookup_all (l : list string) (ids : list nat) :
  Forall (fun i => (i < length l)%nat) ids ->
  exists selected, Forall2 (fun i c => l !! i = Some c) ids selected.
Proof.
  induction 1 as [|i ids Hi _ [selected IH]].
  - exists []. constructor.
  - apply lookup_lt_is_Some in Hi as [c Hc].
    exists (c :: selected). now constructor.
Qed.

(** ** Greedy selection *)

(** What the greedy selection computes, for any [n_select_sample]. *)
Lemma select_greedy_ranking (new_ys : list string) (values : list Q)
    (n_select_sample : Z) (w : World) :
  length values = length new_ys ->
  exists ranking,
    Permutation ranking (seq 0 (length new_ys)) /\
    StronglySorted (ranks_before values) ranking /\
    select_greedy (seq 0 (length new_ys)) (Some values) n_select_sample w
      = (Ok (py_slice_to ranking n_select_sample), w).
Proof.
  intros Hlen. set (ids := seq 0 (length new_ys)).
  assert (Hkeys : Forall2 (fun i k => values !! i = Some k) ids values).
  { unfold ids. rewrite <- Hlen. apply (lookup_all_seq [] values). }
  exists (map snd (sort_desc (zip values ids))). split; [| split].
  - rewrite sort_desc_perm. rewrite snd_zip; [reflexivity |].
    unfold ids. rewrite length_seq. lia.
  - apply ranking_sorted.
    + apply sort_desc_sorted, zip_sorted_snd, seq_sorted.
    + rewrite sort_desc_perm. now apply zip_keys_lookup.
  - unfold select_greedy. erewrite bind_ok; [reflexivity |].
    apply map_m_pure with (bs := values).
    eapply Forall2_impl; [exact Hkeys |].
    intros i k Hik. now apply py_index_run.
Qed.

Lemma py_slice_to_subseteq {A} (l : list A) (n : Z) : py_slice_to l n ⊆ l.
Proof. unfold py_slice_to. destruct (0 <=? n)%Z; apply subseteq_take. Qed.

(** Line 133: the candidates at valid indices. *)
Lemma index_candidates (new_ys : list string) (select_ids : list nat) (w : World) :
  Forall (fun i => (i < length new_ys)%nat) select_ids ->
  exists selected,
    map_m (py_index new_ys) select_ids w = (Ok selected, w) /\
    Forall2 (fun i c => new_ys !! i = Some c) select_ids selected.
Proof.
  intros Hrange. destruct (lookup_all new_ys _ Hrange) as [selected Hselected].
  exists selected. split; [| exact Hselected].
  apply map_m_pure. eapply Forall2_impl; [exact Hselected |].
  intros i c Hic. now apply py_index_run.
Qed.

(** C5: greedy selection ranks the indices of the candidates by decreasing
    score, an index coming before another of equal score when it comes before
    it in the candidate list, and returns the candidates at the first [count]
    indices of that ranking, in that order. *)
Theorem select_greedy_stable (new_ys : list string) (values : list Q)
    (count : nat) (w : World) :
  length values = length new_ys ->
  exists ranking selected,
    Permutation ranking (seq 0 (length new_ys)) /\
    StronglySorted (ranks_before values) ranking /\
    select_greedy (seq 0 (length new_ys)) (Some values) (Z.of_nat count) w
      = (Ok (take count ranking), w) /\
    map_m (py_index new_ys) (take count ranking) w = (Ok selected, w) /\
    Forall2 (fun i c => new_ys !! i = Some c) (take count ranking) selected.
Proof.
  intros Hlen.
  destruct (select_greedy_ranking new_ys values (Z.of_nat count) w Hlen)
    as (ranking & Hperm & Hsorted & Hrun).
  rewrite py_slice_to_nat in Hrun.
  destruct (index_candidates new_ys (take count ranking) w)
    as (selected & Hselected & Hlookup).
  { apply Forall_forall. intros i Hi. apply (subseteq_take count ranking) in Hi.
    rewrite Hperm in Hi. apply elem_of_seq in Hi. lia. }
  now exists ranking, selected.
Qed.

(** The example of the specification: with scores [[3, 1, 3]] and count 2 the
    indices selected are [[0, 2]], in that order. *)
Lemma select_greedy_3_1_3 (w : World) :
  select_greedy [0; 1; 2]%nat (Some [3; 1; 3]%Q) 2 w = (Ok [0; 2]%nat, w).
Proof. reflexivity. Qed.

Lemma map_m_index_elem {A} (l : list A) ids w cs w' :
  map_m (py_index l) ids w = (Ok cs, w') -> Forall (fun c => c ∈ l) cs.
Proof.
  revert w cs w'. induction ids as [|i ids IH]; intros w cs w' H; simpl in H.
  - injection H as <- _. constructor.
  - apply bind_inv in H as (c & w1 & Hc & H).
    apply bind_inv in H as (cs' & w2 & Hrest & H).
    injection H as <- _. constructor; [| eapply IH, Hrest].
    unfold py_index in Hc. destruct (l !! i) as [a|] eqn:Hi; [| discriminate Hc].
    injection Hc as <- _. eapply list_elem_of_lookup_2, Hi.
Qed.

Lemma frontier_before_app {Input} (infos more : list (StepInfo Input)) i :
  (i <= length infos)%nat ->
  frontier_before (infos ++ more) i = frontier_before infos i.
Proof.
  intros Hi. destruct i as [|j]; simpl; [reflexivity |].
  now rewrite lookup_app_l by lia.
Qed.

Ltac eval_eqb :=
  repeat match goal with
         | |- context [String.eqb ?a ?b] =>
             let v := eval vm_compute in (String.eqb a b) in
             change (String.eqb a b) with v
         end;
  cbv iota.

Section Properties.
Context {Input : Type}.
Variable model : Backend.
Variable uniform : Uniform.

(** ** Generation *)

Lemma gpt_run prompt n stop w :
  gpt model prompt n stop w
  = (model (gpt_log w) (request w prompt n stop),
     set_gpt_log (gpt_log w ++ [request w prompt n stop]) w).
Proof. reflexivity. Qed.

Lemma get_samples_run (task : Task Input) x y n prompt_sample stop w :
  prompt_sample = "standard" \/ prompt_sample = "cot" ->
  get_samples model task x y n prompt_sample stop w
  = let call := request w (sample_prompt task x y prompt_sample) n stop in
    let w' := set_gpt_log (gpt_log w ++ [call]) w in
    match model (gpt_log w) call with
    | Ok samples => (Ok (map (fun s => y +:+ s) samples), w')
    | Raise e => (Raise e, w')
    end.
Proof.
  intros [-> | ->]; unfold get_samples, sample_prompt; simpl;
    unfold bind, ret; rewrite gpt_run; simpl;
    now destruct (model _ _).
Qed.

(** C6: with the sampling strategy and width [n], when the backend answers
    with [n] completions, [get_samples] returns exactly [n] candidates, each
    being [y] followed by one completion, hence starting with [y]. *)
Theorem get_samples_width (task : Task Input) x y n prompt_sample stop w samples :
  prompt_sample = "standard" \/ prompt_sample = "cot" ->
  model (gpt_log w) (request w (sample_prompt task x y prompt_sample) n stop)
    = Ok samples ->
  Z.of_nat (length samples) = n ->
  exists candidates w',
    get_samples model task x y n prompt_sample stop w = (Ok candidates, w') /\
    Z.of_nat (length candidates) = n /\
    Forall2 (fun c s => c = y +:+ s) candidates samples /\
    Forall (fun c => String.prefix y c = true) candidates.
Proof.
  intros Hmode Hmodel Hlen.
  eexists (map (fun s => y +:+ s) samples), _.
  rewrite (get_samples_run _ _ _ _ _ _ _ Hmode). simpl. rewrite Hmodel.
  split; [reflexivity |]. split; [now rewrite length_map |]. split.
  - clear. induction samples; constructor; auto.
  - apply Forall_forall. intros c Hc.
    apply list_elem_of_fmap in Hc as (s & -> & _). apply prefix_append.
Qed.

Lemma split_from_length acc s :
  length (split_from acc s) = S (count_newlines s).
Proof.
  revert acc. induction s as [|c s IH]; intros acc; simpl; [reflexivity |].
  destruct (Ascii.eqb c newline_char); simpl; now rewrite IH.
Qed.

Lemma filter_all {A} (P : A -> Prop) `{forall a, Decision (P a)} (l : list A) :
  Forall P l -> filter P l = l.
Proof.
  induction 1 as [|a l Ha _ IH]; [reflexivity |].
  rewrite filter_cons. destruct (decide (P a)); [now rewrite IH | contradiction].
Qed.

(** C2, as the code has it: [get_proposals] returns one candidate for every
    segment that the line terminators cut the completion into, the empty
    segments included: one more candidate than there are line terminators,
    each being [y], then the segment, then a line terminator.  When no segment
    is empty these segments are exactly the non-empty lines. *)
Theorem get_proposals_segments (task : Task Input) x y w outputs completion :
  model (gpt_log w) (request w (propose_prompt_wrap task x y) 1 None)
    = Ok outputs ->
  outputs !! 0%nat = Some completion ->
  exists candidates w',
    get_proposals model task x y w = (Ok candidates, w') /\
    candidates = map (fun p => y +:+ p +:+ newline) (split_newline completion) /\
    length candidates = S (count_newlines completion) /\
    (Forall (fun p => p <> EmptyString) (split_newline completion) ->
     split_newline completion = nonempty_lines completion).
Proof.
  intros Hmodel Hfirst. eexists _, _. split.
  - unfold get_proposals. simpl. unfold bind at 1. rewrite gpt_run, Hmodel.
    unfold bind at 1. unfold py_index. rewrite Hfirst. unfold ret. reflexivity.
  - split; [reflexivity |]. split.
    + rewrite length_map. apply split_from_length.
    + intros Hall. unfold nonempty_lines. symmetry. now apply filter_all.
Qed.

(** ** The value cache *)


Lemma map_m_length {A B} (f : A -> M B) l w bs w' :
  map_m f l w = (Ok bs, w') -> length bs = length l.
Proof.
  revert w bs w'. induction l as [|a l IH]; intros w bs w' H; simpl in H.
  - injection H as <- _. reflexivity.
  - apply bind_inv in H as (b & w1 & _ & H).
    apply bind_inv in H as (bs' & w2 & Hrest & H).
    injection H as <- _. simpl. f_equal. eapply IH, Hrest.
Qed.

Lemma spread_scores_length seen ys scores :
  length scores = length (first_occurrences seen ys) ->
  length (spread_scores seen ys scores) = length ys.
Proof.
  revert seen scores. induction ys as [|y ys IH]; intros seen scores H; simpl in *;
    [reflexivity |].
  destruct (bool_decide (y ∈ seen)); simpl.
  - f_equal. now apply IH.
  - destruct scores as [|s scores]; [discriminate H |].
    simpl. f_equal. apply IH. now injection H.
Qed.

(** The loop of [get_values] against the specification, for any point of
    the iteration: the keys of [local_value_cache] are the candidates seen. *)
Lemma get_values_loop_spec (task : Task Input) x n cache_value ys :
  forall seen values (local_value_cache : gmap string Q) w,
  (forall y, is_Some (local_value_cache !! y) <-> y ∈ seen) ->
  get_values_loop model task x ys n cache_value values local_value_cache w
  = match map_m (fun y => get_value model task x y n cache_value)
            (first_occurrences seen ys) w with
    | (Ok scores, w') => (Ok (values ++ spread_scores seen ys scores), w')
    | (Raise e, w') => (Raise e, w')
    end.
Proof.
  induction ys as [|y ys IH]; intros seen values local w Hdom; simpl.
  - unfold ret. now rewrite app_nil_r.
  - destruct (local !! y) as [v0|] eqn:Hy.
    + rewrite bool_decide_eq_true_2 by (apply Hdom; eauto).
      rewrite (IH seen) by exact Hdom.
      destruct (map_m _ _ w) as [[scores|e] w']; [| reflexivity].
      now rewrite <- app_assoc.
    + rewrite bool_decide_eq_false_2
        by (intros Hin; apply Hdom in Hin as [? Hin]; congruence).
      simpl. unfold bind at 1 2.
      destruct (get_value model task x y n cache_value w) as [[v|e] w1];
        [| reflexivity].
      rewrite (IH (y :: seen)).
      * unfold bind. destruct (map_m _ _ w1) as [[scores|e] w']; [| reflexivity].
        unfold ret. simpl. now rewrite <- app_assoc.
      * intros z. rewrite lookup_insert_is_Some, elem_of_cons, Hdom.
        split; intros [H|H]; auto; [right; tauto |].
        destruct (decide (y = z)); [now left | right; auto].
Qed.

Lemma get_values_refines (task : Task Input) x ys n cache_value w :
  get_values model task x ys n cache_value w
  = get_values_spec model task x ys n cache_value w.
Proof.
  unfold get_values, get_values_spec.
  rewrite (get_values_loop_spec task x n cache_value ys []).
  - unfold bind. now destruct (map_m _ _ w) as [[scores|e] w'].
  - intros y. rewrite lookup_empty, elem_of_nil. split; [intros [? ?] |];
      easy.
Qed.

(** C3: [get_values] refines the duplicate-suppressing evaluation of the
    specification.  The first occurrence of each candidate is scored by
    [get_value], in order; a later occurrence gets [0] and makes no call, as
    the world only moves through the calls for the first occurrences.  The
    list returned has one score per candidate, in the order of [ys]. *)
Theorem get_values_dedup (task : Task Input) x ys n cache_value w :
  get_values model task x ys n cache_value w
    = get_values_spec model task x ys n cache_value w /\
  forall values w',
    get_values model task x ys n cache_value w = (Ok values, w') ->
    length values = length ys.
Proof.
  split; [apply get_values_refines |].
  intros values w' H. rewrite get_values_refines in H.
  unfold get_values_spec in H.
  apply bind_inv in H as (scores & w1 & Hscores & H).
  injection H as <- _.
  apply spread_scores_length. eapply map_m_length, Hscores.
Qed.

(** The example of the specification: in [[A, A, B]] the second [A] is not
    scored. *)
Lemma get_values_A_A_B (task : Task Input) x A B n cache_value w :
  A <> B ->
  get_values model task x [A; A; B] n cache_value w
  = (let* a := get_value model task x A n cache_value in
     let* b := get_value model task x B n cache_value in
     ret [a; 0%Q; b]) w.
Proof.
  intros Hne.
  assert (H1 : bool_decide (A ∈ @nil string) = false)
    by (apply bool_decide_eq_false_2, not_elem_of_nil).
  assert (H2 : bool_decide (A ∈ [A]) = true)
    by (apply bool_decide_eq_true_2, list_elem_of_here).
  assert (H3 : bool_decide (B ∈ [A]) = false)
    by (apply bool_decide_eq_false_2; rewrite list_elem_of_singleton; congruence).
  assert (Hfirst : first_occurrences [] [A; A; B] = [A; B]).
  { cbn [first_occurrences]. now rewrite H1, H2, H3. }
  assert (Hspread : forall a b, spread_scores [] [A; A; B] [a; b] = [a; 0%Q; b]).
  { intros a b. cbn [spread_scores]. now rewrite H1, H2, H3. }
  rewrite get_values_refines.
  unfold get_values_spec. rewrite Hfirst. cbn [map_m]. unfold bind, ret.
  destruct (get_value model task x A n cache_value w) as [[a|e] w1];
    [| reflexivity].
  destruct (get_value model task x B n cache_value w1) as [[b|e] w2];
    [| reflexivity].
  now rewrite Hspread.
Qed.

(** ** The naive baseline *)

(** C9: [naive_solve] generates from the empty candidate with the sampling
    strategy and no stop condition; when the backend answers with as many
    completions as asked, these are returned as the candidates, with an
    empty dict for a trace.  It sends this one request, leaves the value
    cache as it was, and runs the same whatever the cache holds. *)
Theorem naive_solve_frame args (task : Task Input) idx to_print w samples :
  let x := get_input task idx in
  let call := request (set_gpt_bound (Some (backend args, temperature args)) w)
                (sample_prompt task x EmptyString (prompt_sample args))
                (n_generate_sample args) None in
  prompt_sample args = "standard" \/ prompt_sample args = "cot" ->
  model (gpt_log w) call = Ok samples ->
  Z.of_nat (length samples) = n_generate_sample args ->
  exists w',
    naive_solve model args task idx to_print w = (Ok (samples, None), w') /\
    Z.of_nat (length samples) = n_generate_sample args /\
    gpt_log w' = gpt_log w ++ [call] /\
    value_cache w' = value_cache w /\
    forall cache,
      naive_solve model args task idx to_print (set_value_cache cache w)
      = (Ok (samples, None), set_value_cache cache w').
Proof.
  intros x call Hmode Hmodel Hlen.
  assert (Hid : map (fun s => EmptyString +:+ s) samples = samples).
  { clear. induction samples as [|s l IH]; simpl; [reflexivity | now rewrite IH]. }
  assert (Hrun : forall w0, gpt_log w0 = gpt_log w -> gpt_bound w0 = gpt_bound w ->
    naive_solve model args task idx to_print w0
    = (Ok (samples, None),
       set_gpt_log (gpt_log w ++ [call])
         (set_gpt_bound (Some (backend args, temperature args)) w0))).
  { intros w0 Hlog Hbound. unfold naive_solve. unfold bind at 1. unfold rebind_gpt.
    unfold bind at 1.
    rewrite (get_samples_run _ _ _ _ _ _ _ Hmode). simpl.
    unfold request. simpl. rewrite Hlog.
    fold x. change (mkCall _ _ _ _) with call. rewrite Hmodel.
    unfold ret. now rewrite Hid. }
  eexists. split; [apply Hrun; reflexivity |].
  split; [exact Hlen |]. split; [reflexivity |]. split; [reflexivity |].
  intros cache. rewrite Hrun by reflexivity. reflexivity.
Qed.

(** ** The search loop *)

Lemma solve_step_record args (task : Task Input) x to_print step st w st' w' :
  solve_step model uniform args task x to_print step st w = (Ok st', w') ->
  exists r,
    l_infos st' = l_infos st ++ [r] /\
    info_step r = step /\ info_x r = x /\ info_ys r = l_ys st /\
    info_select_new_ys r = l_ys st' /\
    Forall (fun c => c ∈ info_new_ys r) (l_ys st').
Proof.
  intros H. unfold solve_step in H. cbv zeta in H.
  apply bind_inv in H as (nested0 & w1 & _ & H).
  apply bind_inv in H as (nested & w2 & _ & H).
  apply bind_inv in H as (values0 & w3 & _ & H).
  apply bind_inv in H as (ids0 & w4 & _ & H).
  apply bind_inv in H as (select_ids & w5 & _ & H).
  apply bind_inv in H as (select_new_ys & w6 & Hsel & H).
  apply bind_inv in H as (? & w7 & _ & H).
  apply bind_inv in H as (values & w8 & _ & H).
  injection H as <- _. eexists. simpl.
  split; [reflexivity |]. repeat (split; [reflexivity |]).
  eapply map_m_index_elem, Hsel.
Qed.

Lemma for_steps_trace args (task : Task Input) x to_print n :
  forall k st w st' w',
  for_steps (solve_step model uniform args task x to_print) (seq k n) st w
    = (Ok st', w') ->
  length (l_infos st) = k ->
  trace_ok x (l_infos st) ->
  l_ys st = frontier_before (l_infos st) k ->
  length (l_infos st') = (k + n)%nat /\
  trace_ok x (l_infos st') /\
  l_ys st' = frontier_before (l_infos st') (k + n).
Proof.
  induction n as [|n IH]; intros k st w st' w' H Hlen Hok Hys; simpl in H.
  - injection H as <- _. rewrite Nat.add_0_r. auto.
  - apply bind_inv in H as (st1 & w1 & Hstep & H).
    apply solve_step_record in Hstep
      as (r & Hinfos & Hr1 & Hr2 & Hr3 & Hr4 & Hr5).
    rewrite <- Nat.add_succ_comm. apply (IH _ _ _ _ _ H).
    + rewrite Hinfos, length_app. simpl. lia.
    + rewrite Hinfos. intros i r0 Hi.
      destruct (decide (i < k)%nat) as [Hlt | Hge].
      * rewrite lookup_app_l in Hi by lia.
        rewrite frontier_before_app by lia. now apply Hok.
      * rewrite lookup_app_r in Hi by lia.
        destruct (i - length (l_infos st))%nat as [|j] eqn:Hj;
          [| now destruct j].
        injection Hi as <-. assert (i = k) as -> by lia.
        rewrite frontier_before_app by lia.
        rewrite Hr1, Hr2, Hr3, Hr4. repeat split; auto.
    + rewrite Hinfos. simpl.
      rewrite lookup_app_r by lia. rewrite Hlen, Nat.sub_diag. simpl.
      now symmetry.
Qed.

(** *** No step raises *)

Section Honest.
Hypothesis model_ok : honours_interface model.

Lemma gpt_ok prompt n stop w :
  exists outs w',
    gpt model prompt n stop w = (Ok outs, w') /\
    ((0 <= n)%Z -> Z.of_nat (length outs) = n).
Proof.
  destruct (model_ok (gpt_log w) (request w prompt n stop)) as (outs & Hrun & Hlen).
  exists outs, (set_gpt_log (gpt_log w ++ [request w prompt n stop]) w).
  split; [| exact Hlen]. unfold gpt. fold (request w prompt n stop).
  now rewrite Hrun.
Qed.

Lemma map_m_ok {A B} (f : A -> M B) (P : B -> Prop) (l : list A) :
  (forall a w, a ∈ l -> exists b w', f a w = (Ok b, w') /\ P b) ->
  forall w, exists bs w',
    map_m f l w = (Ok bs, w') /\ Forall P bs /\ length bs = length l.
Proof.
  induction l as [|a l IH]; intros Hf w; simpl.
  - exists [], w. repeat split; constructor.
  - destruct (Hf a w) as (b & w1 & Hb & HP); [left |].
    destruct (IH (fun a' w' Hin => Hf a' w' (list_elem_of_further _ _ _ Hin)) w1)
      as (bs & w2 & Hbs & HPs & Hlen).
    exists (b :: bs), w2. unfold bind. rewrite Hb, Hbs.
    repeat split; [now constructor | simpl; now rewrite Hlen].
Qed.

Lemma split_from_nonempty acc s : split_from acc s <> [].
Proof.
  revert acc. induction s as [|c s IH]; intros acc; simpl; [discriminate |].
  destruct (Ascii.eqb c newline_char); [discriminate | apply IH].
Qed.

Lemma get_proposals_ok (task : Task Input) x y w :
  exists candidates w',
    get_proposals model task x y w = (Ok candidates, w') /\ candidates <> [].
Proof.
  destruct (gpt_ok (propose_prompt_wrap task x y) 1 None w)
    as (outs & w' & Hrun & Hlen).
  specialize (Hlen ltac:(lia)).
  destruct outs as [|first outs]; [discriminate Hlen |].
  eexists _, w'. unfold get_proposals. cbv zeta. unfold bind at 1. rewrite Hrun.
  unfold bind, py_index, ret. simpl. split; [reflexivity |].
  unfold split_newline. pose proof (split_from_nonempty EmptyString first) as Hne.
  destruct (split_from EmptyString first); [congruence | discriminate].
Qed.

Lemma get_samples_ok (task : Task Input) x y n prompt_sample stop w :
  prompt_sample = "standard" \/ prompt_sample = "cot" ->
  exists candidates w',
    get_samples model task x y n prompt_sample stop w = (Ok candidates, w') /\
    ((1 <= n)%Z -> candidates <> []).
Proof.
  intros Hmode.
  destruct (gpt_ok (sample_prompt task x y prompt_sample) n stop w)
    as (outs & w' & Hrun & Hlen).
  exists (map (fun s => y +:+ s) outs), w'. split.
  - destruct Hmode as [-> | ->]; unfold get_samples; simpl;
      unfold bind at 1; unfold ret at 1;
      unfold sample_prompt in Hrun; simpl in Hrun;
      unfold bind; rewrite Hrun; reflexivity.
  - intros Hn. specialize (Hlen ltac:(lia)).
    destruct outs; [simpl in Hlen; lia | discriminate].
Qed.

Lemma get_value_ok (task : Task Input) x y n cache_value w :
  exists v w', get_value model task x y n cache_value w = (Ok v, w').
Proof.
  unfold get_value. cbv zeta. unfold bind at 1, get_world.
  destruct (if cache_value then _ else _) as [cached|]; [now eexists _, _ |].
  destruct (gpt_ok (value_prompt_wrap task x y) n None w)
    as (outs & w' & Hrun & _).
  unfold bind at 1. rewrite Hrun.
  destruct cache_value; unfold bind, cache_store, ret; now eexists _, _.
Qed.

Lemma get_values_ok (task : Task Input) x ys n cache_value w :
  exists values w',
    get_values model task x ys n cache_value w = (Ok values, w') /\
    length values = length ys.
Proof.
  rewrite get_values_refines. unfold get_values_spec.
  destruct (map_m_ok (fun y => get_value model task x y n cache_value)
              (fun _ => True) (first_occurrences [] ys)) with (w := w)
    as (scores & w' & Hrun & _ & Hlen).
  { intros y w0 _. destruct (get_value_ok task x y n cache_value w0)
      as (v & w1 & Hv). now exists v, w1. }
  eexists _, w'. unfold bind. rewrite Hrun. unfold ret.
  split; [reflexivity |]. now apply spread_scores_length.
Qed.

Lemma concat_nonempty {A} (nested : list (list A)) :
  nested <> [] -> Forall (fun l => l <> []) nested -> concat nested <> [].
Proof.
  intros Hne Hall. destruct Hall as [|l nested Hl _]; [congruence |].
  simpl. destruct l; [congruence | discriminate].
Qed.

Lemma py_slice_to_nonempty {A} (l : list A) (n : Z) :
  (1 <= n)%Z -> l <> [] -> py_slice_to l n <> [].
Proof.
  intros Hn Hl. unfold py_slice_to. rewrite (proj2 (Z.leb_le 0 n)) by lia.
  destruct l; [congruence |].
  destruct (Z.to_nat n) eqn:Hk; [lia | discriminate].
Qed.

Lemma solve_step_ok args (task : Task Input) x to_print step st w :
  runs_through args task to_print ->
  (step < Z.to_nat (steps task))%nat ->
  (to_print = true -> l_ys st <> []) ->
  exists st' w',
    solve_step model uniform args task x to_print step st w = (Ok st', w') /\
    (to_print = true -> l_ys st' <> []).
Proof.
  intros (Hgen & Heval & Hsel & Hprint) Hstep Hys.
  unfold solve_step. cbv zeta.
  (* generation *)
  assert (Hnested : exists nested w1,
    (if String.eqb (method_generate args) "sample" then
       let* l := map_m (fun y =>
                   let* stop := py_index (stops task) step in
                   get_samples model task x y (n_generate_sample args)
                     (prompt_sample args) stop) (l_ys st) in
       ret (Some l)
     else if String.eqb (method_generate args) "propose" then
       let* l := map_m (fun y => get_proposals model task x y) (l_ys st) in
       ret (Some l)
     else ret (option_map (map chars) (l_new_ys st))) w
    = (Ok (Some nested), w1) /\
    (to_print = true -> concat nested <> [])).
  { destruct Hgen as [Hp | (Hs & Hmode & Hstops)].
    - rewrite Hp. eval_eqb.
      destruct (map_m_ok (fun y => get_proposals model task x y)
                  (fun c => c <> []) (l_ys st)) with (w := w)
        as (nested & w1 & Hrun & Hall & Hlen).
      { intros y w0 _. apply get_proposals_ok. }
      exists nested, w1. rewrite (bind_ok _ _ _ _ _ Hrun). split; [reflexivity |].
      intros Hp'. apply concat_nonempty; [| exact Hall].
      specialize (Hys Hp'). destruct nested; [| discriminate].
      destruct (l_ys st); [congruence | discriminate Hlen].
    - rewrite Hs. eval_eqb.
      destruct (lookup_lt_is_Some_2 (stops task) step) as [stop Hstop]; [lia |].
      destruct (map_m_ok (fun y =>
                   let* stop := py_index (stops task) step in
                   get_samples model task x y (n_generate_sample args)
                     (prompt_sample args) stop)
                  (fun c => (1 <= n_generate_sample args)%Z -> c <> [])
                  (l_ys st)) with (w := w)
        as (nested & w1 & Hrun & Hall & Hlen).
      { intros y w0 _. rewrite (bind_ok _ _ _ _ _ (py_index_run _ _ _ w0 Hstop)).
        now apply get_samples_ok. }
      exists nested, w1. rewrite (bind_ok _ _ _ _ _ Hrun). split; [reflexivity |].
      intros Hp'. destruct (Hprint Hp') as [_ [Hp | Hn]]; [congruence |].
      apply concat_nonempty.
      + specialize (Hys Hp'). destruct nested; [| discriminate].
        destruct (l_ys st); [congruence | discriminate Hlen].
      + eapply Forall_impl; [exact Hall |]. auto. }
  destruct Hnested as (nested & w1 & Hnested & Hnonempty).
  rewrite (bind_ok _ _ _ _ _ Hnested). unfold load_local at 1.
  unfold bind at 1. unfold ret at 1.
  set (new_ys := concat nested) in *.
  (* evaluation *)
  assert (Hvalues : exists values w2,
    (if String.eqb (method_evaluate args) "vote" then
       let* v := get_votes model task x new_ys (n_evaluate_sample args) in
       ret (Some v)
     else if String.eqb (method_evaluate args) "value" then
       let* v := get_values model task x new_ys (n_evaluate_sample args) true in
       ret (Some v)
     else ret (l_values st)) w1 = (Ok (Some values), w2) /\
    length values = length new_ys).
  { destruct Heval as [Hv | (Hv & Hunwrap)].
    - rewrite Hv. eval_eqb.
      destruct (get_values_ok task x new_ys (n_evaluate_sample args) true w1)
        as (values & w2 & Hrun & Hlen).
      exists values, w2. unfold bind. rewrite Hrun. now split.
    - rewrite Hv. eval_eqb.
      destruct (gpt_ok (vote_prompt_wrap task x new_ys) (n_evaluate_sample args)
                  None w1) as (outs & w2 & Hrun & _).
      eexists _, w2. unfold get_votes. cbv zeta. unfold bind. rewrite Hrun.
      unfold ret. split; [reflexivity |]. apply Hunwrap. }
  destruct Hvalues as (values & w2 & Hvalues & Hlen).
  rewrite (bind_ok _ _ _ _ _ Hvalues).
  (* selection *)
  rewrite Hsel. eval_eqb.
  destruct (select_greedy_ranking new_ys values (n_select_sample args) w2 Hlen)
    as (ranking & Hperm & _ & Hselect).
  unfold bind at 1. unfold bind at 1. rewrite Hselect.
  unfold ret at 1. unfold load_local at 1. unfold bind at 1. unfold ret at 1.
  destruct (index_candidates new_ys (py_slice_to ranking (n_select_sample args)) w2)
    as (selected & Hselected & Hlookup).
  { apply Forall_forall. intros i Hi. apply py_slice_to_subseteq in Hi.
    rewrite Hperm in Hi. apply elem_of_seq in Hi. lia. }
  rewrite (bind_ok _ _ _ _ _ Hselected).
  assert (Hlog : log_step to_print new_ys (Some values) w2 = (Ok tt, w2)).
  { unfold log_step. destruct to_print; [| reflexivity].
    unfold load_local, bind, ret.
    specialize (Hnonempty eq_refl).
    destruct new_ys; [congruence |]. destruct values; [discriminate Hlen |].
    reflexivity. }
  rewrite (bind_ok _ _ _ _ _ Hlog).
  unfold load_local, bind, ret. eexists _, _. split; [reflexivity |].
  simpl. intros Hp'. specialize (Hnonempty Hp').
  destruct (Hprint Hp') as [Hn _].
  assert (Hrank : ranking <> []).
  { intros ->. apply Permutation_nil_l in Hperm.
    destruct new_ys; [congruence | discriminate Hperm]. }
  pose proof (py_slice_to_nonempty ranking _ Hn Hrank) as Hsl.
  apply Forall2_length in Hlookup.
  destruct selected; [| discriminate].
  destruct (py_slice_to ranking (n_select_sample args)); [congruence | discriminate].
Qed.

Lemma for_steps_ok args (task : Task Input) x to_print n :
  runs_through args task to_print ->
  forall k st w,
  (k + n <= Z.to_nat (steps task))%nat ->
  (to_print = true -> l_ys st <> []) ->
  exists st' w',
    for_steps (solve_step model uniform args task x to_print) (seq k n) st w
    = (Ok st', w').
Proof.
  intros Hcfg. induction n as [|n IH]; intros k st w Hk Hys; simpl.
  - now exists st, w.
  - destruct (solve_step_ok args task x to_print k st w Hcfg) as
      (st1 & w1 & Hstep & Hys1); [lia | exact Hys |].
    rewrite (bind_ok _ _ _ _ _ Hstep). apply IH; [lia | exact Hys1].
Qed.

Lemma solve_ok args (task : Task Input) idx to_print w :
  runs_through args task to_print ->
  exists r w', solve model uniform args task idx to_print w = (Ok r, w').
Proof.
  intros Hcfg. unfold solve. cbv zeta. unfold bind at 1, rebind_gpt.
  destruct (for_steps_ok args task (get_input task idx) to_print
              (Z.to_nat (steps task)) Hcfg 0%nat
              (mkLocals [EmptyString] [] None None None)
              (set_gpt_bound (Some (backend args, temperature args)) w))
    as (st & w' & Hrun).
  - simpl. lia.
  - discriminate.
  - rewrite (bind_ok _ _ _ _ _ Hrun). now eexists _, _.
Qed.

End Honest.

Lemma solve_returns_trace args (task : Task Input) idx to_print w ys info w' :
  solve model uniform args task idx to_print w = (Ok (ys, info), w') ->
  exists infos,
    info = Some infos /\
    length infos = Z.to_nat (steps task) /\
    trace_ok (get_input task idx) infos /\
    ys = frontier_before infos (length infos).
Proof.
  intros H. unfold solve in H. cbv zeta in H.
  apply bind_inv in H as ([] & w1 & _ & H).
  apply bind_inv in H as (st & w2 & Hloop & H).
  injection H as <- <- _.
  apply for_steps_trace in Hloop as (Hlen & Hok & Hys).
  - simpl in Hlen, Hys. exists (l_infos st).
    split; [reflexivity |]. split; [exact Hlen |]. split; [exact Hok |].
    now rewrite Hlen.
  - reflexivity.
  - intros i r Hi. discriminate Hi.
  - reflexivity.
Qed.

(** C10: with [task.steps = 0] the loop body never runs: [solve] returns the
    frontier made of the empty candidate and an empty trace, having only
    rebound [gpt]; no request is sent and the cache is left alone. *)
Theorem solve_zero_steps args (task : Task Input) idx to_print w :
  steps task = 0%Z ->
  exists w',
    solve model uniform args task idx to_print w
      = (Ok ([EmptyString], Some []), w') /\
    gpt_log w' = gpt_log w /\
    value_cache w' = value_cache w.
Proof.
  intros Hsteps. eexists. unfold solve. rewrite Hsteps. simpl.
  unfold bind, rebind_gpt, ret. simpl. split; [reflexivity |]. now split.
Qed.

(** *** Unrecognised identifiers *)

(** X1: An unrecognised template mode is refused by [get_samples] before any
    request is sent, with an error that names it. *)
Lemma get_samples_unrecognized (task : Task Input) x y n prompt_sample stop w :
  prompt_sample <> "standard" -> prompt_sample <> "cot" ->
  get_samples model task x y n prompt_sample stop w
  = (Raise (ValueError ("prompt_sample " +:+ prompt_sample +:+ " not recognized")),
     w).
Proof.
  intros H1 H2. unfold get_samples.
  rewrite (string_eqb_neq _ _ H1), (string_eqb_neq _ _ H2). reflexivity.
Qed.

(** An unrecognised generation strategy is not refused: the first step fails
    on the unassigned [new_ys], and with no step nothing fails at all. *)
Lemma solve_unrecognized_generate args (task : Task Input) idx to_print w :
  method_generate args <> "sample" -> method_generate args <> "propose" ->
  (1 <= steps task)%Z ->
  solve model uniform args task idx to_print w
  = (Raise (UnboundLocalError "new_ys"),
     set_gpt_bound (Some (backend args, temperature args)) w).
Proof.
  intros H1 H2 Hsteps. unfold solve. cbv zeta. unfold bind at 1, rebind_gpt.
  destruct (Z.to_nat (steps task)) as [|n] eqn:Hn; [lia |].
  cbn [seq for_steps]. unfold bind at 1. unfold solve_step. cbv zeta.
  rewrite (string_eqb_neq _ _ H1), (string_eqb_neq _ _ H2).
  reflexivity.
Qed.

End Properties.

(** * The properties on concrete runs *)

(** C1: an evaluation strategy that [solve] does not know is not refused up
    front.  The proposals of the first step are requested from the backend,
    and the step then fails on the unassigned [values], with an error that
    does not name the strategy. *)
Theorem solve_unrecognized_evaluate :
  let run := solve (const_model two_lines) half bad_evaluate_args demo_task 0 true
               fresh_world in
  method_evaluate bad_evaluate_args = "best" /\
  fst run = Raise (NameError "values") /\
  gpt_log (snd run) = [mkCall "P:X|" 1 None (Some ("gpt-4", (7 # 10)%Q))].
Proof. vm_compute. repeat split. Qed.

(** C2 fails as stated: the completion [ended_line] has one non-empty line,
    and [get_proposals] returns two candidates, the second made of the empty
    segment that follows the line terminator. *)
Lemma get_proposals_counterexample :
  ~ proposal_lines_claim (const_model ended_line) demo_task "X" "y" fresh_world
      ended_line.
Proof.
  intros H. destruct H as (candidates & w' & Hrun & Hlen & _); [reflexivity |].
  vm_compute in Hrun. injection Hrun as <- _. vm_compute in Hlen.
  discriminate Hlen.
Qed.

Lemma get_proposals_segments_witness :
  exists candidates w',
    get_proposals (const_model two_lines) demo_task "X" "y" fresh_world
      = (Ok candidates, w') /\
    candidates = ["y" +:+ "a" +:+ newline; "y" +:+ "bb" +:+ newline] /\
    split_newline two_lines = nonempty_lines two_lines.
Proof.
  destruct (get_proposals_segments (const_model two_lines) demo_task "X" "y"
              fresh_world [two_lines] two_lines eq_refl eq_refl)
    as (candidates & w' & Hrun & Heq & _ & Hlines).
  exists candidates, w'. split; [exact Hrun |]. split; [exact Heq |].
  apply Hlines. repeat constructor; discriminate.
Defined.

Lemma get_values_dedup_witness :
  exists values w',
    get_values (const_model "ok") demo_task "X" ["A"; "A"; "B"] 2 true fresh_world
      = (Ok values, w') /\
    length values = 3%nat.
Proof.
  destruct (get_values (const_model "ok") demo_task "X" ["A"; "A"; "B"] 2 true
              fresh_world) as [[values|e] w'] eqn:Hrun.
  - exists values, w'. split; [reflexivity |].
    exact (proj2 (get_values_dedup (const_model "ok") demo_task "X"
                    ["A"; "A"; "B"] 2 true fresh_world) values w' Hrun).
  - vm_compute in Hrun. discriminate Hrun.
Defined.


Lemma select_greedy_stable_witness :
  exists ranking selected,
    Permutation ranking [0; 1; 2]%nat /\
    StronglySorted (ranks_before [3; 1; 3]%Q) ranking /\
    select_greedy [0; 1; 2]%nat (Some [3; 1; 3]%Q) 2 fresh_world
      = (Ok (take 2 ranking), fresh_world) /\
    map_m (py_index ["a"; "b"; "c"]) (take 2 ranking) fresh_world
      = (Ok selected, fresh_world) /\
    Forall2 (fun i c => ["a"; "b"; "c"] !! i = Some c) (take 2 ranking) selected.
Proof.
  exact (select_greedy_stable ["a"; "b"; "c"] [3; 1; 3]%Q 2 fresh_world eq_refl).
Defined.

Lemma get_samples_width_witness :
  exists candidates w',
    get_samples (const_model "s") demo_task "X" "y" 3 "cot" None fresh_world
      = (Ok candidates, w') /\
    Z.of_nat (length candidates) = 3%Z /\
    Forall (fun c => String.prefix "y" c = true) candidates.
Proof.
  destruct (get_samples_width (const_model "s") demo_task "X" "y" 3 "cot" None
              fresh_world ["s"; "s"; "s"] (or_intror eq_refl) eq_refl eq_refl)
    as (candidates & w' & Hrun & Hlen & _ & Hprefix).
  now exists candidates, w'.
Defined.

Lemma const_model_honours (completion : string) :
  honours_interface (const_model completion).
Proof.
  intros log call. eexists. split; [reflexivity |].
  intros Hn. rewrite repeat_length. lia.
Defined.

Lemma demo_runs_through : runs_through demo_args demo_task true.
Proof.
  repeat split; try (left; reflexivity).
  intros Hcmp. discriminate Hcmp.
Defined.

Lemma naive_solve_frame_witness :
  exists w',
    naive_solve (const_model "s") demo_args demo_task 0 true fresh_world
      = (Ok (["s"; "s"; "s"], None), w') /\
    value_cache w' = value_cache fresh_world /\
    length (gpt_log w') = 1%nat.
Proof.
  destruct (naive_solve_frame (const_model "s") demo_args demo_task 0 true
              fresh_world ["s"; "s"; "s"] (or_introl eq_refl) eq_refl eq_refl)
    as (w' & Hrun & _ & Hlog & Hcache & _).
  exists w'. split; [exact Hrun |]. split; [exact Hcache |].
  now rewrite Hlog.
Defined.

Lemma solve_zero_steps_witness :
  exists w',
    solve (const_model two_lines) half demo_args idle_task 0 true fresh_world
      = (Ok ([EmptyString], Some []), w') /\
    gpt_log w' = [].
Proof.
  destruct (solve_zero_steps (const_model two_lines) half demo_args idle_task 0
              true fresh_world eq_refl) as (w' & Hrun & Hlog & _).
  now exists w'.
Defined.

(** * Further properties of the code *)

Lemma solve_step_blocks {Input} (model : Backend) (uniform : Uniform) args
    (task : Task Input) x to_print step st :
  solve_step model uniform args task x to_print step st
  = (let* nested := generate_block model args task x step st in
     let* nested := load_local "new_ys" nested in
     let new_ys := concat nested in
     let ids := seq 0 (length new_ys) in
     let* values := evaluate_block model args task x st new_ys in
     let* select_ids := select_block uniform args st ids values in
     let* select_ids := load_local "select_ids" select_ids in
     let* select_new_ys := map_m (py_index new_ys) select_ids in
     let* _ := log_step to_print new_ys values in
     let* values := load_local "values" values in
     ret (mkLocals select_new_ys
            (l_infos st ++ [mkInfo step x (l_ys st) new_ys values select_new_ys])
            (Some new_ys) (Some values) (Some select_ids))).
Proof. reflexivity. Qed.

(** ** Relations kept by every operation *)

Lemma keeps_ret {A} (R : World -> World -> Prop) (a : A) :
  (forall w, R w w) -> keeps R (ret a).
Proof. intros Hrefl w. apply Hrefl. Qed.

Lemma keeps_raise {A} (R : World -> World -> Prop) (e : PyError) :
  (forall w, R w w) -> keeps R (@raise A e).
Proof. intros Hrefl w. apply Hrefl. Qed.

Lemma keeps_bind {A B} (R : World -> World -> Prop) (m : M A) (k : A -> M B) :
  (forall w1 w2 w3, R w1 w2 -> R w2 w3 -> R w1 w3) ->
  keeps R m -> (forall a, keeps R (k a)) -> keeps R (bind m k).
Proof.
  intros Htrans Hm Hk w. unfold bind. specialize (Hm w).
  destruct (m w) as [[a|e] w1]; simpl in *; [| exact Hm].
  eapply Htrans; [exact Hm | apply Hk].
Qed.

Section Keeps.
Context {Input : Type}.
Variable model : Backend.
Variable uniform : Uniform.
Variable R : World -> World -> Prop.
Hypothesis R_refl : forall w, R w w.
Hypothesis R_trans : forall w1 w2 w3, R w1 w2 -> R w2 w3 -> R w1 w3.
Hypothesis R_gpt : forall prompt n stop, keeps R (gpt model prompt n stop).

Lemma keeps_map_m {A B} (f : A -> M B) (l : list A) :
  (forall a, keeps R (f a)) -> keeps R (map_m f l).
Proof.
  intros Hf. induction l as [|a l IH]; simpl.
  - now apply keeps_ret.
  - apply keeps_bind; [exact R_trans | apply Hf |]. intros b.
    apply keeps_bind; [exact R_trans | exact IH |]. intros bs.
    now apply keeps_ret.
Qed.

Lemma keeps_py_index {A} (l : list A) i : keeps R (py_index l i).
Proof. intros w. unfold py_index. destruct (l !! i); apply R_refl. Qed.

Lemma keeps_load_local {A} name (v : option A) : keeps R (load_local name v).
Proof. intros w. destruct v; apply R_refl. Qed.

Lemma keeps_get_samples (task : Task Input) x y n prompt_sample stop :
  keeps R (get_samples model task x y n prompt_sample stop).
Proof.
  unfold get_samples.
  apply keeps_bind; [exact R_trans | |].
  - destruct (String.eqb _ _); [now apply keeps_ret |].
    destruct (String.eqb _ _); [now apply keeps_ret | now apply keeps_raise].
  - intros prompt. apply keeps_bind; [exact R_trans | apply R_gpt |].
    intros samples. now apply keeps_ret.
Qed.

Lemma keeps_get_proposals (task : Task Input) x y :
  keeps R (get_proposals model task x y).
Proof.
  unfold get_proposals. cbv zeta.
  apply keeps_bind; [exact R_trans | apply R_gpt |]. intros outputs.
  apply keeps_bind; [exact R_trans | apply keeps_py_index |]. intros first.
  now apply keeps_ret.
Qed.

Lemma keeps_get_votes (task : Task Input) x ys n :
  keeps R (get_votes model task x ys n).
Proof.
  unfold get_votes. cbv zeta.
  apply keeps_bind; [exact R_trans | apply R_gpt |]. intros outputs.
  now apply keeps_ret.
Qed.

Lemma keeps_get_value (task : Task Input) x y n cache_value :
  (cache_value = true -> keeps_store R) ->
  keeps R (get_value model task x y n cache_value).
Proof.
  intros Hstore w. unfold get_value. cbv zeta. unfold bind at 1, get_world.
  destruct cache_value.
  - destruct (value_cache w !! value_prompt_wrap task x y) as [cached|] eqn:Hk;
      [apply R_refl |].
    unfold bind at 1. rewrite gpt_run.
    pose proof (R_gpt (value_prompt_wrap task x y) n None w) as Hgpt.
    rewrite gpt_run in Hgpt. simpl in Hgpt.
    destruct (model _ _) as [outs|e]; [| exact Hgpt].
    unfold bind, ret. simpl.
    eapply R_trans; [exact Hgpt |].
    apply (Hstore eq_refl (value_prompt_wrap task x y) _ (set_gpt_log _ w)).
    exact Hk.
  - unfold bind at 1. rewrite gpt_run.
    pose proof (R_gpt (value_prompt_wrap task x y) n None w) as Hgpt.
    rewrite gpt_run in Hgpt. simpl in Hgpt.
    destruct (model _ _) as [outs|e]; exact Hgpt.
Qed.

Lemma keeps_get_values (task : Task Input) x ys n cache_value :
  (cache_value = true -> keeps_store R) ->
  keeps R (get_values model task x ys n cache_value).
Proof.
  intros Hstore w. rewrite get_values_refines. revert w.
  unfold get_values_spec.
  apply keeps_bind; [exact R_trans | |].
  - apply keeps_map_m. intros y. now apply keeps_get_value.
  - intros scores. now apply keeps_ret.
Qed.

Lemma keeps_select_greedy ids values n : keeps R (select_greedy ids values n).
Proof.
  unfold select_greedy. cbv zeta.
  apply keeps_bind; [exact R_trans | |].
  - apply keeps_map_m. intros i. destruct values;
      [apply keeps_py_index | now apply keeps_raise].
  - intros keys. now apply keeps_ret.
Qed.

Lemma keeps_select_sample ids values n :
  keeps_random uniform R -> keeps R (select_sample uniform ids values n).
Proof.
  intros Hrandom. unfold select_sample, np_random_choice. cbv zeta.
  destruct (_ && _); [now apply keeps_raise |].
  destruct (negb _); [now apply keeps_raise |].
  destruct (finite_entries _) as [p|]; [| now apply keeps_raise].
  destruct (existsb _ _); [now apply keeps_raise |].
  destruct (Qltb _ _); [now apply keeps_raise |].
  destruct (_ <? _)%Z; [now apply keeps_raise |].
  apply keeps_bind; [exact R_trans | apply Hrandom |]. intros us.
  apply keeps_map_m. intros i. apply keeps_py_index.
Qed.

Lemma keeps_log_step to_print new_ys values :
  keeps R (log_step to_print new_ys values).
Proof.
  intros w. unfold log_step. destruct to_print; [| apply R_refl].
  destruct values as [values|]; [| apply R_refl].
  unfold load_local, bind, ret. destruct (zip new_ys values); apply R_refl.
Qed.

Lemma keeps_solve_step args (task : Task Input) x to_print step st :
  (method_evaluate args = "value" -> keeps_store R) ->
  (method_select args = "sample" -> keeps_random uniform R) ->
  keeps R (solve_step model uniform args task x to_print step st).
Proof.
  intros Hstore Hrandom. rewrite solve_step_blocks.
  apply keeps_bind; [exact R_trans | |].
  { unfold generate_block.
    destruct (String.eqb _ _).
    - apply keeps_bind; [exact R_trans | |]; [| intros; now apply keeps_ret].
      apply keeps_map_m. intros y.
      apply keeps_bind; [exact R_trans | apply keeps_py_index |].
      intros stop. apply keeps_get_samples.
    - destruct (String.eqb _ _); [| now apply keeps_ret].
      apply keeps_bind; [exact R_trans | |]; [| intros; now apply keeps_ret].
      apply keeps_map_m. intros y. apply keeps_get_proposals. }
  intros nested0. apply keeps_bind; [exact R_trans | apply keeps_load_local |].
  intros nested. cbv zeta.
  apply keeps_bind; [exact R_trans | |].
  { unfold evaluate_block.
    destruct (String.eqb (method_evaluate args) "vote").
    - apply keeps_bind; [exact R_trans | apply keeps_get_votes |].
      intros; now apply keeps_ret.
    - destruct (String.eqb (method_evaluate args) "value") eqn:Hv;
        [| now apply keeps_ret].
      apply String.eqb_eq in Hv.
      apply keeps_bind; [exact R_trans | |]; [| intros; now apply keeps_ret].
      apply keeps_get_values. intros _. now apply Hstore. }
  intros values0. apply keeps_bind; [exact R_trans | |].
  { unfold select_block.
    destruct (String.eqb (method_select args) "sample") eqn:Hs.
    - apply String.eqb_eq in Hs.
      apply keeps_bind; [exact R_trans | apply keeps_load_local |]. intros values.
      apply keeps_bind; [exact R_trans | |]; [| intros; now apply keeps_ret].
      apply keeps_select_sample. now apply Hrandom.
    - destruct (String.eqb (method_select args) "greedy"); [| now apply keeps_ret].
      apply keeps_bind; [exact R_trans | apply keeps_select_greedy |].
      intros; now apply keeps_ret. }
  intros select_ids0. apply keeps_bind; [exact R_trans | apply keeps_load_local |].
  intros select_ids. apply keeps_bind; [exact R_trans | |].
  { apply keeps_map_m. intros i. apply keeps_py_index. }
  intros select_new_ys. apply keeps_bind; [exact R_trans | apply keeps_log_step |].
  intros _. apply keeps_bind; [exact R_trans | apply keeps_load_local |].
  intros values. now apply keeps_ret.
Qed.

Lemma keeps_for_steps args (task : Task Input) x to_print range :
  (method_evaluate args = "value" -> keeps_store R) ->
  (method_select args = "sample" -> keeps_random uniform R) ->
  forall st,
  keeps R (for_steps (solve_step model uniform args task x to_print) range st).
Proof.
  intros Hstore Hrandom. induction range as [|step range IH]; intros st; simpl.
  - now apply keeps_ret.
  - apply keeps_bind; [exact R_trans | now apply keeps_solve_step | exact IH].
Qed.

(** [solve] keeps the relation from the world in which [gpt] is rebound. *)
Lemma keeps_solve args (task : Task Input) idx to_print w :
  (method_evaluate args = "value" -> keeps_store R) ->
  (method_select args = "sample" -> keeps_random uniform R) ->
  R (set_gpt_bound (Some (backend args, temperature args)) w)
    (snd (solve model uniform args task idx to_print w)).
Proof.
  intros Hstore Hrandom. unfold solve. cbv zeta. unfold bind at 1, rebind_gpt.
  apply (keeps_bind R _ _ R_trans).
  - now apply keeps_for_steps.
  - intros st. now apply keeps_ret.
Qed.

End Keeps.

(** ** The value cache, the request log and the random state across a run *)

Lemma cache_grows_trans w1 w2 w3 :
  cache_grows w1 w2 -> cache_grows w2 w3 -> cache_grows w1 w3.
Proof. intros H12 H23 k v Hk. apply H23, H12, Hk. Qed.

Lemma cache_grows_store : keeps_store cache_grows.
Proof.
  intros k v w Hnone k' v' Hk'. simpl.
  rewrite lookup_insert_ne; [exact Hk' | congruence].
Qed.

Lemma requests_bound_refl w : requests_bound w w.
Proof.
  split; [reflexivity |]. exists []. split; [now rewrite app_nil_r | constructor].
Qed.

Lemma requests_bound_same w w' :
  gpt_bound w' = gpt_bound w -> gpt_log w' = gpt_log w -> requests_bound w w'.
Proof.
  intros Hb Hl. split; [exact Hb |]. exists [].
  split; [now rewrite app_nil_r | constructor].
Qed.

Lemma requests_bound_trans w1 w2 w3 :
  requests_bound w1 w2 -> requests_bound w2 w3 -> requests_bound w1 w3.
Proof.
  intros (Hb12 & s12 & Hl12 & Hs12) (Hb23 & s23 & Hl23 & Hs23).
  split; [congruence |]. exists (s12 ++ s23). split.
  - rewrite Hl23, Hl12. now rewrite <- app_assoc.
  - apply Forall_app. split; [exact Hs12 |].
    eapply Forall_impl; [exact Hs23 |]. intros call Hcall. simpl in Hcall.
    congruence.
Qed.

Lemma requests_bound_gpt (model : Backend) prompt n stop :
  keeps requests_bound (gpt model prompt n stop).
Proof.
  intros w. rewrite gpt_run. simpl. split; [reflexivity |].
  exists [request w prompt n stop]. split; [reflexivity |].
  now repeat constructor.
Qed.

Section Runs.
Context {Input : Type}.
Variable model : Backend.
Variable uniform : Uniform.

(** X13: [solve] never removes or changes an entry of the value cache, whatever
    the strategies and however the run ends, exceptions included. *)
Theorem solve_cache_grows args (task : Task Input) idx to_print w k v :
  value_cache w !! k = Some v ->
  value_cache (snd (solve model uniform args task idx to_print w)) !! k = Some v.
Proof.
  intros Hk.
  apply (keeps_solve model uniform cache_grows) with (w := w) (args := args)
    (task := task) (idx := idx) (to_print := to_print).
  - now intros w0 k0 v0.
  - exact cache_grows_trans.
  - intros prompt n stop w0 k0 v0 Hk0. exact Hk0.
  - intros _. exact cache_grows_store.
  - intros _ n w0 k0 v0 Hk0. exact Hk0.
  - exact Hk.
Qed.

(** X14: Every request that [solve] sends carries the model and the temperature of
    its own [args], whatever was bound to [gpt] before; the requests are
    appended to those sent earlier, and the binding outlives the call. *)
Theorem solve_requests_bound args (task : Task Input) idx to_print w :
  let w' := snd (solve model uniform args task idx to_print w) in
  gpt_bound w' = Some (backend args, temperature args) /\
  exists sent,
    gpt_log w' = gpt_log w ++ sent /\
    Forall (fun call => call_bound call = Some (backend args, temperature args))
      sent.
Proof.
  apply (keeps_solve model uniform requests_bound) with (w := w) (args := args)
    (task := task) (idx := idx) (to_print := to_print).
  - exact requests_bound_refl.
  - exact requests_bound_trans.
  - apply requests_bound_gpt.
  - intros _ k v w0 _. now apply requests_bound_same.
  - intros _ n w0. now apply requests_bound_same.
Qed.

(** X15: Unless the evaluation strategy is ['value'], [solve] leaves the value
    cache exactly as it found it. *)
Theorem solve_cache_untouched args (task : Task Input) idx to_print w :
  method_evaluate args <> "value" ->
  value_cache (snd (solve model uniform args task idx to_print w)) = value_cache w.
Proof.
  intros Hne.
  apply (keeps_solve model uniform same_cache) with (w := w) (args := args)
    (task := task) (idx := idx) (to_print := to_print).
  - now intros w0.
  - unfold same_cache. intros w1 w2 w3 H12 H23. congruence.
  - now intros prompt n stop w0.
  - intros Hv. contradiction.
  - now intros _ n w0.
Qed.

(** X16: Unless the selection strategy is ['sample'], [solve] draws no random
    number: given the backend, the run is deterministic. *)
Theorem solve_draws_nothing args (task : Task Input) idx to_print w :
  method_select args <> "sample" ->
  rng_used (snd (solve model uniform args task idx to_print w)) = rng_used w.
Proof.
  intros Hne.
  apply (keeps_solve model uniform same_rng) with (w := w) (args := args)
    (task := task) (idx := idx) (to_print := to_print).
  - now intros w0.
  - unfold same_rng. intros w1 w2 w3 H12 H23. congruence.
  - now intros prompt n stop w0.
  - now intros _ k v w0 _.
  - intros Hs. contradiction.
Qed.

End Runs.

(** ** More on the evaluator *)

Lemma first_occurrences_spec (seen ys : list string) :
  NoDup (first_occurrences seen ys) /\
  forall y, y ∈ first_occurrences seen ys <-> y ∈ ys /\ y ∉ seen.
Proof.
  revert seen. induction ys as [|y0 ys IH]; intros seen; simpl.
  - split; [constructor |]. intros y. rewrite elem_of_nil. tauto.
  - case_bool_decide as Hseen.
    + destruct (IH seen) as [Hnd Hin]. split; [exact Hnd |].
      intros y. rewrite Hin, elem_of_cons. split; [tauto |].
      intros [[-> | Hy] Hnot]; [contradiction | tauto].
    + destruct (IH (y0 :: seen)) as [Hnd Hin]. split.
      * constructor; [| exact Hnd]. rewrite Hin, elem_of_cons. tauto.
      * intros y. rewrite !elem_of_cons, Hin, elem_of_cons.
        destruct (decide (y = y0)) as [-> | Hne]; [tauto |]. tauto.
Qed.

Lemma spread_scores_repeat (seen ys : list string) (scores : list Q) j y :
  length scores = length (first_occurrences seen ys) ->
  ys !! j = Some y -> y ∈ seen \/ y ∈ take j ys ->
  spread_scores seen ys scores !! j = Some 0%Q.
Proof.
  revert seen scores j. induction ys as [|y0 ys IH]; intros seen scores j Hlen Hj Hrep;
    [discriminate Hj |].
  simpl in *. case_bool_decide as Hseen.
  - destruct j as [|j]; simpl in *.
    + reflexivity.
    + apply IH; [exact Hlen | exact Hj |].
      destruct Hrep as [Hrep | Hrep]; [now left |].
      apply elem_of_cons in Hrep as [-> | Hrep]; [now left | now right].
  - destruct scores as [|s scores]; [discriminate Hlen |].
    destruct j as [|j]; simpl in *.
    + injection Hj as ->. destruct Hrep as [Hrep | Hrep]; [contradiction |].
      now apply elem_of_nil in Hrep.
    + apply IH; [now injection Hlen | exact Hj |].
      rewrite elem_of_cons.
      destruct Hrep as [Hrep | Hrep]; [now left; right |].
      apply elem_of_cons in Hrep as [-> | Hrep]; [now left; left | now right].
Qed.

Section Evaluator.
Context {Input : Type}.
Variable model : Backend.

Lemma get_value_cache_grows (task : Task Input) x y n cache_value :
  keeps cache_grows (get_value model task x y n cache_value).
Proof.
  apply keeps_get_value.
  - now intros w k v.
  - exact cache_grows_trans.
  - intros prompt n0 stop w k v Hk. exact Hk.
  - intros _. exact cache_grows_store.
Qed.

Lemma get_value_hit (task : Task Input) x y n w v :
  value_cache w !! value_prompt_wrap task x y = Some v ->
  get_value model task x y n true w = (Ok v, w).
Proof.
  intros Hk. unfold get_value. cbv zeta. unfold bind, get_world. now rewrite Hk.
Qed.

Lemma get_value_then_cached (task : Task Input) x y n w v w1 :
  get_value model task x y n true w = (Ok v, w1) ->
  value_cache w1 !! value_prompt_wrap task x y = Some v.
Proof.
  intros Hrun. unfold get_value in Hrun. cbv zeta in Hrun.
  unfold bind at 1, get_world in Hrun.
  destruct (value_cache w !! value_prompt_wrap task x y) as [cached|] eqn:Hk.
  - injection Hrun as <- <-. exact Hk.
  - unfold bind at 1 in Hrun. rewrite gpt_run in Hrun.
    destruct (model _ _) as [outs|e]; [| discriminate Hrun].
    unfold bind, cache_store, ret in Hrun. injection Hrun as <- <-.
    simpl. apply lookup_insert_eq.
Qed.

Lemma map_m_get_value_cached (task : Task Input) x n l :
  forall w scores w1,
  map_m (fun y => get_value model task x y n true) l w = (Ok scores, w1) ->
  Forall2 (fun y v => value_cache w1 !! value_prompt_wrap task x y = Some v)
    l scores.
Proof.
  induction l as [|y l IH]; intros w scores w1 Hrun; simpl in Hrun.
  - injection Hrun as <- _. constructor.
  - apply bind_inv in Hrun as (v & w0 & Hv & Hrun).
    apply bind_inv in Hrun as (vs & w2 & Hvs & Hrun).
    injection Hrun as <- <-. constructor; [| eapply IH, Hvs].
    apply get_value_then_cached in Hv.
    assert (Hgrow : cache_grows w0 w2).
    { pose proof (keeps_map_m cache_grows (fun w k v Hk => Hk) cache_grows_trans
                    (fun y => get_value model task x y n true) l
                    (fun y => get_value_cache_grows task x y n true) w0) as H.
      now rewrite Hvs in H. }
    now apply Hgrow.
Qed.

Lemma map_m_get_value_hits (task : Task Input) x n l scores w :
  Forall2 (fun y v => value_cache w !! value_prompt_wrap task x y = Some v)
    l scores ->
  map_m (fun y => get_value model task x y n true) l w = (Ok scores, w).
Proof.
  intros Hall. apply map_m_pure. eapply Forall2_impl; [exact Hall |].
  intros y v Hk. now apply get_value_hit.
Qed.

(** X5: With caching enabled, evaluating the same candidate list again from the
    world the first evaluation left sends no request, changes nothing and
    returns the same scores, also when the number of samples asked differs. *)
Theorem get_values_idempotent (task : Task Input) x ys n n' w values w1 :
  get_values model task x ys n true w = (Ok values, w1) ->
  get_values model task x ys n' true w1 = (Ok values, w1).
Proof.
  intros Hrun. rewrite get_values_refines in *. unfold get_values_spec in *.
  apply bind_inv in Hrun as (scores & w2 & Hscores & Hrun).
  injection Hrun as <- <-.
  apply map_m_get_value_cached in Hscores.
  now rewrite (bind_ok _ _ _ _ _ (map_m_get_value_hits task x n' _ _ _ Hscores)).
Qed.

(** X6: A candidate that repeats an earlier one of the list gets the score 0 at
    its own position. *)
Theorem get_values_repeat_zero (task : Task Input) x ys n cache_value w values w1 j y :
  get_values model task x ys n cache_value w = (Ok values, w1) ->
  ys !! j = Some y -> y ∈ take j ys ->
  values !! j = Some 0%Q.
Proof.
  intros Hrun Hj Hrep. rewrite get_values_refines in Hrun.
  unfold get_values_spec in Hrun.
  apply bind_inv in Hrun as (scores & w2 & Hscores & Hrun).
  injection Hrun as <- _.
  eapply spread_scores_repeat; [| exact Hj | now right].
  eapply map_m_length, Hscores.
Qed.

Lemma get_value_sends (task : Task Input) x y n cache_value w :
  exists sent,
    gpt_log (snd (get_value model task x y n cache_value w)) = gpt_log w ++ sent /\
    (length sent <= 1)%nat /\
    Forall (fun call => call_prompt call = value_prompt_wrap task x y /\
                        call_n call = n /\ call_stop call = None) sent.
Proof.
  unfold get_value. cbv zeta. unfold bind at 1, get_world.
  destruct (if cache_value then _ else _) as [cached|].
  - exists []. simpl. split; [now rewrite app_nil_r |]. split; [lia | constructor].
  - exists [request w (value_prompt_wrap task x y) n None].
    unfold bind at 1. rewrite gpt_run.
    split; [| split; [simpl; lia | now repeat constructor]].
    destruct (model _ _) as [outs|e]; [| reflexivity].
    destruct cache_value; reflexivity.
Qed.

Lemma map_m_get_value_sends (task : Task Input) x n cache_value l :
  forall w, exists sent,
    gpt_log (snd (map_m (fun y => get_value model task x y n cache_value) l w))
      = gpt_log w ++ sent /\
    (length sent <= length l)%nat /\
    Forall (fun call => (exists y, y ∈ l /\
                           call_prompt call = value_prompt_wrap task x y) /\
                        call_n call = n /\ call_stop call = None) sent.
Proof.
  induction l as [|y l IH]; intros w; simpl.
  - exists []. split; [now rewrite app_nil_r |]. split; [simpl; lia | constructor].
  - destruct (get_value_sends task x y n cache_value w) as (s1 & Hl1 & Hn1 & Hs1).
    unfold bind at 1.
    destruct (get_value model task x y n cache_value w) as [[v|e] w1]; simpl in Hl1.
    + destruct (IH w1) as (s2 & Hl2 & Hn2 & Hs2).
      exists (s1 ++ s2). unfold bind.
      destruct (map_m _ l w1) as [[vs|e] w2]; simpl in *;
        (split; [rewrite Hl2, Hl1; now rewrite <- app_assoc |]);
        (split; [rewrite length_app; lia |]);
        (apply Forall_app; split;
         [eapply Forall_impl; [exact Hs1 |];
          intros call (Hp & Hn & Hs); split; [exists y; split; [left | exact Hp] | now split]
         |eapply Forall_impl; [exact Hs2 |];
          intros call ((y' & Hy' & Hp) & Hn & Hs);
          split; [exists y'; split; [now right | exact Hp] | now split]]).
    + exists s1. simpl. split; [exact Hl1 |]. split; [lia |].
      eapply Forall_impl; [exact Hs1 |].
      intros call (Hp & Hn & Hs); split; [exists y; split; [left | exact Hp] | now split].
Qed.

(** X7: [get_values] sends at most one request per distinct candidate of the
    list, each for [n] completions of the value prompt of a candidate of the
    list, with no stop condition. *)
Theorem get_values_requests (task : Task Input) x ys n cache_value w :
  exists distinct sent,
    NoDup distinct /\ (forall y, y ∈ distinct <-> y ∈ ys) /\
    gpt_log (snd (get_values model task x ys n cache_value w)) = gpt_log w ++ sent /\
    (length sent <= length distinct)%nat /\
    Forall (fun call => (exists y, y ∈ ys /\
                           call_prompt call = value_prompt_wrap task x y) /\
                        call_n call = n /\ call_stop call = None) sent.
Proof.
  destruct (first_occurrences_spec [] ys) as [Hnd Hin].
  assert (Hiff : forall y, y ∈ first_occurrences [] ys <-> y ∈ ys).
  { intros y. rewrite Hin. split; [tauto |]. intros Hy. split; [exact Hy |].
    apply not_elem_of_nil. }
  destruct (map_m_get_value_sends task x n cache_value (first_occurrences [] ys) w)
    as (sent & Hlog & Hlen & Hsent).
  exists (first_occurrences [] ys), sent.
  split; [exact Hnd |]. split; [exact Hiff |].
  rewrite get_values_refines. unfold get_values_spec, bind.
  destruct (map_m _ _ w) as [[scores|e] w1]; simpl in *;
    (split; [exact Hlog |]); (split; [exact Hlen |]);
    (eapply Forall_impl; [exact Hsent |]);
    intros call ((y & Hy & Hp) & Hrest);
    (split; [exists y; split; [now apply Hiff | exact Hp] | exact Hrest]).
Qed.

Lemma get_value_uncached_run (task : Task Input) x y n w :
  get_value model task x y n false w
  = let call := request w (value_prompt_wrap task x y) n None in
    let w' := set_gpt_log (gpt_log w ++ [call]) w in
    match model (gpt_log w) call with
    | Ok outs => (Ok (value_outputs_unwrap task x y outs), w')
    | Raise e => (Raise e, w')
    end.
Proof.
  unfold get_value. cbv zeta. unfold bind at 1, get_world.
  unfold bind at 1. rewrite gpt_run. now destruct (model _ _).
Qed.

Lemma get_value_uncached_frame (task : Task Input) x y n cache w :
  get_value model task x y n false (set_value_cache cache w)
  = (fst (get_value model task x y n false w),
     set_value_cache cache (snd (get_value model task x y n false w))).
Proof.
  rewrite !get_value_uncached_run. unfold request. simpl.
  now destruct (model _ _).
Qed.

Lemma map_m_frame {A B} (f : A -> M B) (cache : gmap string Q) (l : list A) :
  (forall a w, f a (set_value_cache cache w)
               = (fst (f a w), set_value_cache cache (snd (f a w)))) ->
  forall w, map_m f l (set_value_cache cache w)
            = (fst (map_m f l w), set_value_cache cache (snd (map_m f l w))).
Proof.
  intros Hf. induction l as [|a l IH]; intros w; simpl; [reflexivity |].
  unfold bind at 1 3 5. rewrite Hf.
  destruct (f a w) as [[b|e] w1]; simpl; [| reflexivity].
  unfold bind. rewrite IH. now destruct (map_m f l w1) as [[bs|e] w2].
Qed.

(** X8: With caching disabled the evaluation neither reads nor writes the value
    cache: it leaves the cache as it is, and it runs the same, whatever the
    cache holds. *)
Theorem get_values_uncached (task : Task Input) x ys n w :
  let run := get_values model task x ys n false w in
  value_cache (snd run) = value_cache w /\
  forall cache,
    get_values model task x ys n false (set_value_cache cache w)
    = (fst run, set_value_cache cache (snd run)).
Proof.
  cbv zeta. split.
  - apply (keeps_get_values model same_cache).
    + now intros w0.
    + unfold same_cache. intros w1 w2 w3 H12 H23. congruence.
    + now intros prompt n0 stop w0.
    + intros Hfalse. discriminate Hfalse.
  - intros cache. rewrite !get_values_refines. unfold get_values_spec.
    unfold bind.
    rewrite (map_m_frame (fun y => get_value model task x y n false) cache _
               (fun y w0 => get_value_uncached_frame task x y n cache w0)).
    now destruct (map_m _ _ w) as [[scores|e] w1].
Qed.

End Evaluator.

(** ** More on the generators *)

Lemma append_cons (ch : Ascii.ascii) (a b : string) :
  String ch a +:+ b = String ch (a +:+ b).
Proof. reflexivity. Qed.

Lemma append_assoc (a b c : string) : (a +:+ b) +:+ c = a +:+ (b +:+ c).
Proof.
  induction a as [|ch a IH]; [reflexivity |].
  rewrite !append_cons. now rewrite IH.
Qed.

Lemma append_empty_r (a : string) : a +:+ EmptyString = a.
Proof.
  induction a as [|ch a IH]; [reflexivity |].
  rewrite append_cons. now rewrite IH.
Qed.

Lemma count_newlines_app (a b : string) :
  count_newlines (a +:+ b) = (count_newlines a + count_newlines b)%nat.
Proof.
  induction a as [|ch a IH]; [reflexivity |].
  rewrite append_cons. simpl. rewrite IH. lia.
Qed.

Lemma join_with_cons sep s rest :
  rest <> [] -> join_with sep (s :: rest) = s +:+ sep +:+ join_with sep rest.
Proof. intros Hne. destruct rest; [congruence | reflexivity]. Qed.

Lemma split_from_join acc s :
  join_with newline (split_from acc s) = acc +:+ s.
Proof.
  revert acc. induction s as [|c s IH]; intros acc; simpl.
  - now rewrite append_empty_r.
  - destruct (Ascii.eqb c newline_char) eqn:Hc.
    + apply Ascii.eqb_eq in Hc. subst c.
      rewrite join_with_cons by apply split_from_nonempty.
      rewrite IH. reflexivity.
    + rewrite IH, append_assoc. reflexivity.
Qed.

Lemma split_from_newline_free acc s :
  newline_free acc -> Forall newline_free (split_from acc s).
Proof.
  revert acc. induction s as [|c s IH]; intros acc Hacc; simpl.
  - now repeat constructor.
  - destruct (Ascii.eqb c newline_char) eqn:Hc.
    + constructor; [exact Hacc |]. now apply IH.
    + apply IH. unfold newline_free in *. rewrite count_newlines_app, Hacc.
      simpl. now rewrite Hc.
Qed.

Section Generators.
Context {Input : Type}.
Variable model : Backend.

(** X3: [get_proposals] loses nothing of the completion it splits: the candidates
    are [y] followed by a segment and a line terminator, there is at least one
    of them (an empty completion gives the one candidate [y] plus a line
    terminator), no segment holds a line terminator, and the segments joined
    by line terminators are the completion. *)
Theorem get_proposals_round_trip (task : Task Input) x y w outputs completion :
  model (gpt_log w) (request w (propose_prompt_wrap task x y) 1 None)
    = Ok outputs ->
  outputs !! 0%nat = Some completion ->
  exists segments w',
    get_proposals model task x y w
      = (Ok (map (fun p => y +:+ p +:+ newline) segments), w') /\
    segments <> [] /\
    Forall newline_free segments /\
    join_with newline segments = completion.
Proof.
  intros Hmodel Hfirst. exists (split_newline completion). eexists. split.
  - unfold get_proposals. cbv zeta. unfold bind at 1. rewrite gpt_run, Hmodel.
    unfold bind at 1. unfold py_index. rewrite Hfirst. reflexivity.
  - split; [apply split_from_nonempty |]. split.
    + now apply split_from_newline_free.
    + unfold split_newline. now rewrite split_from_join.
Qed.

(** X4: When the backend returns no completion, [get_proposals] fails with an
    [IndexError], the request having been sent. *)
Theorem get_proposals_no_completion (task : Task Input) x y w :
  model (gpt_log w) (request w (propose_prompt_wrap task x y) 1 None) = Ok [] ->
  get_proposals model task x y w
  = (Raise (IndexError "list index out of range"),
     set_gpt_log (gpt_log w ++ [request w (propose_prompt_wrap task x y) 1 None]) w).
Proof.
  intros Hmodel. unfold get_proposals. cbv zeta. unfold bind at 1.
  rewrite gpt_run, Hmodel. reflexivity.
Qed.

(** X2: An exception of the backend passes through [get_samples] as it is, the
    request being the only trace the call leaves. *)
Theorem get_samples_backend_error (task : Task Input) x y n prompt_sample stop w e :
  prompt_sample = "standard" \/ prompt_sample = "cot" ->
  model (gpt_log w) (request w (sample_prompt task x y prompt_sample) n stop)
    = Raise e ->
  get_samples model task x y n prompt_sample stop w
  = (Raise e,
     set_gpt_log
       (gpt_log w ++ [request w (sample_prompt task x y prompt_sample) n stop]) w).
Proof.
  intros Hmode Hmodel. rewrite get_samples_run by exact Hmode.
  cbv zeta. now rewrite Hmodel.
Qed.

End Generators.

(** ** More on the selectors *)

Lemma map_m_index_short (values : list Q) (w : World) m :
  forall k, (k <= length values)%nat -> (length values < k + m)%nat ->
  map_m (py_index values) (seq k m) w
  = (Raise (IndexError "list index out of range"), w).
Proof.
  induction m as [|m IH]; intros k Hk Hlt; [lia |]. simpl.
  destruct (decide (k = length values)) as [-> | Hne].
  - unfold bind, py_index. now rewrite lookup_ge_None_2.
  - destruct (lookup_lt_is_Some_2 values k) as [v Hv]; [lia |].
    rewrite (bind_ok _ _ _ _ _ (py_index_run _ _ _ w Hv)).
    unfold bind at 1. rewrite IH by lia. reflexivity.
Qed.

(** X11: With fewer scores than candidates, as a vote unwrapping may return, the
    greedy selection fails with an [IndexError]. *)
Theorem select_greedy_short_values (new_ys : list string) (values : list Q)
    (n : Z) (w : World) :
  (length values < length new_ys)%nat ->
  select_greedy (seq 0 (length new_ys)) (Some values) n w
  = (Raise (IndexError "list index out of range"), w).
Proof.
  intros Hlt. unfold select_greedy. cbv zeta. unfold bind.
  rewrite map_m_index_short by lia. reflexivity.
Qed.

Lemma py_slice_to_length {A} (l : list A) (n : Z) :
  length (py_slice_to l n)
  = if (0 <=? n)%Z then Nat.min (Z.to_nat n) (length l)
    else (length l - Z.to_nat (- n))%nat.
Proof.
  unfold py_slice_to. destruct (0 <=? n)%Z; rewrite length_take; lia.
Qed.



(** ** More on the search loop *)

Lemma map_m_Forall2 {A B} (f : A -> M B) (Q : A -> B -> Prop) (l : list A) :
  (forall a w b w', f a w = (Ok b, w') -> Q a b) ->
  forall w bs w', map_m f l w = (Ok bs, w') -> Forall2 Q l bs.
Proof.
  intros Hf. induction l as [|a l IH]; intros w bs w' Hrun; simpl in Hrun.
  - injection Hrun as <- _. constructor.
  - apply bind_inv in Hrun as (b & w1 & Hb & Hrun).
    apply bind_inv in Hrun as (bs' & w2 & Hbs & Hrun).
    injection Hrun as <- _. constructor; [eapply Hf, Hb | eapply IH, Hbs].
Qed.

Lemma map_m_py_index_inv {A} (l : list A) ids w cs w' :
  map_m (py_index l) ids w = (Ok cs, w') ->
  w' = w /\ Forall2 (fun i c => l !! i = Some c) ids cs.
Proof.
  revert w cs w'. induction ids as [|i ids IH]; intros w cs w' Hrun; simpl in Hrun.
  - injection Hrun as <- <-. split; [reflexivity | constructor].
  - apply bind_inv in Hrun as (c & w1 & Hc & Hrun).
    apply bind_inv in Hrun as (cs' & w2 & Hcs & Hrun).
    injection Hrun as <- <-.
    unfold py_index in Hc. destruct (l !! i) as [a|] eqn:Hi; [| discriminate Hc].
    injection Hc as <- <-. apply IH in Hcs as [-> Hcs].
    split; [reflexivity | now constructor].
Qed.

Lemma load_local_inv {A} name (v : option A) w a w' :
  load_local name v w = (Ok a, w') -> v = Some a /\ w' = w.
Proof.
  destruct v as [a0|]; intros H; [| discriminate H].
  injection H as <- <-. now split.
Qed.

Lemma log_step_inv to_print new_ys values w u w' :
  log_step to_print new_ys values w = (Ok u, w') ->
  w' = w /\
  (to_print = true ->
   exists vs, values = Some vs /\ new_ys <> [] /\ vs <> []).
Proof.
  unfold log_step. destruct to_print.
  - destruct values as [vs|]; [| discriminate].
    unfold load_local, bind, ret.
    destruct new_ys as [|c new_ys]; [discriminate |].
    destruct vs as [|v vs]; [discriminate |].
    intros H. injection H as _ <-. split; [reflexivity |].
    intros _. exists (v :: vs). now repeat split.
  - intros H. injection H as _ <-. split; [reflexivity | discriminate].
Qed.

Lemma concat_extends (ys : list string) (nested : list (list string)) :
  Forall2 (fun y cands => Forall (fun c => String.prefix y c = true) cands)
    ys nested ->
  Forall (fun c => exists y, y ∈ ys /\ String.prefix y c = true) (concat nested).
Proof.
  induction 1 as [|y cands ys nested Hy _ IH]; simpl; [constructor |].
  apply Forall_app. split.
  - eapply Forall_impl; [exact Hy |]. intros c Hc. exists y. split; [left | exact Hc].
  - eapply Forall_impl; [exact IH |]. intros c (y' & Hy' & Hc).
    exists y'. split; [now right | exact Hc].
Qed.

Lemma select_greedy_length ids values n w s w' :
  select_greedy ids values n w = (Ok s, w') ->
  (0 <= n)%Z -> (length s <= Z.to_nat n)%nat.
Proof.
  intros Hrun Hn. unfold select_greedy in Hrun. cbv zeta in Hrun.
  apply bind_inv in Hrun as (keys & w1 & _ & Hrun).
  injection Hrun as <- _. rewrite py_slice_to_length.
  rewrite (proj2 (Z.leb_le 0 n) Hn). lia.
Qed.

Lemma select_sample_length uniform ids values n w s w' :
  select_sample uniform ids values n w = (Ok s, w') ->
  length s = Z.to_nat n.
Proof.
  unfold select_sample, np_random_choice. cbv zeta.
  destruct (_ && _); [discriminate |].
  destruct (negb _); [discriminate |].
  destruct (finite_entries _) as [p|]; [| discriminate].
  destruct (existsb _ _); [discriminate |].
  destruct (Qltb _ _); [discriminate |].
  destruct (_ <? _)%Z; [discriminate |].
  intros Hrun. apply bind_inv in Hrun as (us & w1 & Hus & Hrun).
  apply map_m_length in Hrun. unfold random_sample in Hus.
  injection Hus as <- _. rewrite Hrun. now rewrite !length_map, length_seq.
Qed.

Section Loop.
Context {Input : Type}.
Variable model : Backend.
Variable uniform : Uniform.

Lemma get_samples_extends (task : Task Input) x y n prompt_sample stop w cands w' :
  get_samples model task x y n prompt_sample stop w = (Ok cands, w') ->
  Forall (fun c => String.prefix y c = true) cands.
Proof.
  intros Hrun. unfold get_samples in Hrun.
  apply bind_inv in Hrun as (prompt & w1 & _ & Hrun).
  apply bind_inv in Hrun as (samples & w2 & _ & Hrun).
  injection Hrun as <- _. apply Forall_forall. intros c Hc.
  apply list_elem_of_fmap in Hc as (s & -> & _). apply prefix_append.
Qed.

Lemma get_proposals_extends (task : Task Input) x y w cands w' :
  get_proposals model task x y w = (Ok cands, w') ->
  Forall (fun c => String.prefix y c = true) cands.
Proof.
  intros Hrun. unfold get_proposals in Hrun. cbv zeta in Hrun.
  apply bind_inv in Hrun as (outputs & w1 & _ & Hrun).
  apply bind_inv in Hrun as (first & w2 & _ & Hrun).
  injection Hrun as <- _. apply Forall_forall. intros c Hc.
  apply list_elem_of_fmap in Hc as (s & -> & _). apply prefix_append.
Qed.

Lemma get_values_length (task : Task Input) x ys n cache_value w values w' :
  get_values model task x ys n cache_value w = (Ok values, w') ->
  length values = length ys.
Proof.
  intros Hrun. rewrite get_values_refines in Hrun. unfold get_values_spec in Hrun.
  apply bind_inv in Hrun as (scores & w1 & Hscores & Hrun).
  injection Hrun as <- _.
  apply spread_scores_length. eapply map_m_length, Hscores.
Qed.

(** What a step that completes went through. *)
Lemma solve_step_inv args (task : Task Input) x to_print step st w st' w' :
  solve_step model uniform args task x to_print step st w = (Ok st', w') ->
  exists nested values select_ids w1 w2,
    generate_block model args task x step st w = (Ok (Some nested), w1) /\
    evaluate_block model args task x st (concat nested) w1
      = (Ok (Some values), w2) /\
    select_block uniform args st (seq 0 (length (concat nested))) (Some values) w2
      = (Ok (Some select_ids), w') /\
    Forall2 (fun i c => concat nested !! i = Some c) select_ids (l_ys st') /\
    l_infos st'
    = l_infos st ++ [mkInfo step x (l_ys st) (concat nested) values (l_ys st')].
Proof.
  intros H. rewrite solve_step_blocks in H.
  apply bind_inv in H as (nested0 & w1 & Hgen & H).
  apply bind_inv in H as (nested & w1' & Hl1 & H).
  apply load_local_inv in Hl1 as [-> ->]. cbv zeta in H.
  apply bind_inv in H as (values0 & w2 & Heval & H).
  apply bind_inv in H as (ids0 & w3 & Hsel & H).
  apply bind_inv in H as (select_ids & w3' & Hl2 & H).
  apply load_local_inv in Hl2 as [-> ->].
  apply bind_inv in H as (select_new_ys & w4 & Hidx & H).
  apply map_m_py_index_inv in Hidx as [-> Hidx].
  apply bind_inv in H as (u & w5 & Hlog & H).
  apply log_step_inv in Hlog as [-> _].
  apply bind_inv in H as (values & w6 & Hl3 & H).
  apply load_local_inv in Hl3 as [-> ->].
  injection H as <- <-. simpl.
  now exists nested, values, select_ids, w1, w2.
Qed.

Lemma generate_block_extends args (task : Task Input) x step st w nested w1 :
  method_generate args = "sample" \/ method_generate args = "propose" ->
  generate_block model args task x step st w = (Ok (Some nested), w1) ->
  Forall (fun c => exists y, y ∈ l_ys st /\ String.prefix y c = true)
    (concat nested).
Proof.
  intros Hgen Hrun. apply concat_extends. unfold generate_block in Hrun.
  destruct Hgen as [Hg | Hg]; rewrite Hg in Hrun; revert Hrun; eval_eqb;
    intros Hrun; apply bind_inv in Hrun as (l & w2 & Hl & Hrun);
    injection Hrun as <- _; revert Hl; apply map_m_Forall2.
  - intros y w0 cands w0' Hy.
    apply bind_inv in Hy as (stop & w3 & _ & Hy). eapply get_samples_extends, Hy.
  - intros y w0 cands w0' Hy. eapply get_proposals_extends, Hy.
Qed.

Lemma generate_block_recognized args (task : Task Input) x step st w nested w1 :
  l_new_ys st = None ->
  generate_block model args task x step st w = (Ok (Some nested), w1) ->
  method_generate args = "sample" \/ method_generate args = "propose".
Proof.
  intros Hnone. unfold generate_block.
  destruct (String.eqb (method_generate args) "sample") eqn:H1;
    [left; now apply String.eqb_eq |].
  destruct (String.eqb (method_generate args) "propose") eqn:H2;
    [right; now apply String.eqb_eq |].
  rewrite Hnone. discriminate.
Qed.

Lemma select_block_recognized args (st : Locals Input) ids values w s w1 :
  l_select_ids st = None ->
  select_block uniform args st ids values w = (Ok (Some s), w1) ->
  method_select args = "sample" \/ method_select args = "greedy".
Proof.
  intros Hnone. unfold select_block.
  destruct (String.eqb (method_select args) "sample") eqn:H1;
    [left; now apply String.eqb_eq |].
  destruct (String.eqb (method_select args) "greedy") eqn:H2;
    [right; now apply String.eqb_eq |].
  rewrite Hnone. discriminate.
Qed.

Lemma select_block_length args (st : Locals Input) ids values w s w1 :
  method_select args = "sample" \/ method_select args = "greedy" ->
  (0 <= n_select_sample args)%Z ->
  select_block uniform args st ids values w = (Ok (Some s), w1) ->
  (length s <= Z.to_nat (n_select_sample args))%nat.
Proof.
  intros Hsel Hn Hrun. unfold select_block in Hrun.
  destruct Hsel as [Hs | Hs]; rewrite Hs in Hrun; revert Hrun; eval_eqb;
    intros Hrun.
  - apply bind_inv in Hrun as (vs & w2 & _ & Hrun).
    apply bind_inv in Hrun as (s' & w3 & Hs' & Hrun).
    injection Hrun as <- _. apply select_sample_length in Hs'. lia.
  - apply bind_inv in Hrun as (s' & w3 & Hs' & Hrun).
    injection Hrun as <- _. now apply select_greedy_length in Hs'.
Qed.

Lemma evaluate_block_value_length args (task : Task Input) x st new_ys w values w1 :
  method_evaluate args = "value" ->
  evaluate_block model args task x st new_ys w = (Ok (Some values), w1) ->
  length values = length new_ys.
Proof.
  intros Hv Hrun. unfold evaluate_block in Hrun. rewrite Hv in Hrun.
  revert Hrun. eval_eqb. intros Hrun.
  apply bind_inv in Hrun as (vs & w2 & Hvs & Hrun).
  injection Hrun as <- _. eapply get_values_length, Hvs.
Qed.

(** A property of the record that every completed step appends holds of the
    whole trace. *)
Lemma for_steps_records args (task : Task Input) x to_print
    (P : StepInfo Input -> Prop) :
  (forall step st w st' w',
     solve_step model uniform args task x to_print step st w = (Ok st', w') ->
     exists r, l_infos st' = l_infos st ++ [r] /\ P r) ->
  forall range st w st' w',
  for_steps (solve_step model uniform args task x to_print) range st w
    = (Ok st', w') ->
  Forall P (l_infos st) -> Forall P (l_infos st').
Proof.
  intros Hstep. induction range as [|step range IH]; intros st w st' w' Hrun Hall;
    simpl in Hrun.
  - now injection Hrun as <- _.
  - apply bind_inv in Hrun as (st1 & w1 & Hs & Hrun).
    apply (IH _ _ _ _ Hrun).
    destruct (Hstep _ _ _ _ _ Hs) as (r & -> & Hr).
    apply Forall_app. split; [exact Hall | now repeat constructor].
Qed.

(** A run that completes a step recognised its generation and selection
    strategies. *)
Lemma solve_recognized args (task : Task Input) idx to_print w ys infos w' :
  solve model uniform args task idx to_print w = (Ok (ys, Some infos), w') ->
  infos = [] \/
  ((method_generate args = "sample" \/ method_generate args = "propose") /\
   (method_select args = "sample" \/ method_select args = "greedy")).
Proof.
  intros H. pose proof H as Htrace.
  apply solve_returns_trace in Htrace as (infos' & Heq & Hlen & _).
  injection Heq as <-.
  unfold solve in H. cbv zeta in H.
  apply bind_inv in H as ([] & w1 & _ & H).
  apply bind_inv in H as (st & w2 & Hloop & _).
  destruct (Z.to_nat (steps task)) as [|k];
    [left; now destruct infos |].
  right. simpl in Hloop.
  apply bind_inv in Hloop as (st1 & w3 & Hstep & _).
  apply solve_step_inv in Hstep
    as (nested & values & select_ids & w4 & w5 & Hgen & _ & Hsel & _).
  split.
  - eapply generate_block_recognized, Hgen. reflexivity.
  - eapply select_block_recognized, Hsel. reflexivity.
Qed.

Lemma solve_records args (task : Task Input) idx to_print
    (P : StepInfo Input -> Prop) w ys infos w' :
  (forall step st w st' w',
     solve_step model uniform args task (get_input task idx) to_print step st w
       = (Ok st', w') ->
     exists r, l_infos st' = l_infos st ++ [r] /\ P r) ->
  solve model uniform args task idx to_print w = (Ok (ys, Some infos), w') ->
  Forall P infos.
Proof.
  intros Hstep H. unfold solve in H. cbv zeta in H.
  apply bind_inv in H as ([] & w1 & _ & H).
  apply bind_inv in H as (st & w2 & Hloop & H).
  injection H as _ <- _.
  eapply for_steps_records; [exact Hstep | exact Hloop | constructor].
Qed.

(** X17: In the trace of a run that returns, every candidate of an expanded set
    extends a candidate of the frontier its step started from. *)
Theorem solve_expansions_extend args (task : Task Input) idx to_print w ys infos w' :
  solve model uniform args task idx to_print w = (Ok (ys, Some infos), w') ->
  Forall (fun r =>
            Forall (fun c => exists y, y ∈ info_ys r /\ String.prefix y c = true)
              (info_new_ys r)) infos.
Proof.
  intros H. destruct (solve_recognized _ _ _ _ _ _ _ _ H) as [-> | [Hgen _]];
    [constructor |].
  eapply solve_records; [| exact H].
  intros step st w0 st' w0' Hstep.
  apply solve_step_inv in Hstep
    as (nested & values & select_ids & w1 & w2 & Hg & _ & _ & _ & Hinfos).
  eexists. split; [exact Hinfos |]. simpl.
  eapply generate_block_extends; eassumption.
Qed.

(** X18: With the value strategy, every record of the trace of a run that returns
    holds one score per candidate of its expanded set. *)
Theorem solve_scores_per_candidate args (task : Task Input) idx to_print w ys
    infos w' :
  method_evaluate args = "value" ->
  solve model uniform args task idx to_print w = (Ok (ys, Some infos), w') ->
  Forall (fun r => length (info_values r) = length (info_new_ys r)) infos.
Proof.
  intros Hv H. eapply solve_records; [| exact H].
  intros step st w0 st' w0' Hstep.
  apply solve_step_inv in Hstep
    as (nested & values & select_ids & w1 & w2 & _ & He & _ & _ & Hinfos).
  eexists. split; [exact Hinfos |]. simpl.
  eapply evaluate_block_value_length; eassumption.
Qed.

(** X19: With a selection size that is not negative, no step of a run that
    returns selects more candidates than that size, and after at least one
    step the frontier returned is no larger. *)
Theorem solve_frontier_bounded args (task : Task Input) idx to_print w ys infos w' :
  (0 <= n_select_sample args)%Z ->
  solve model uniform args task idx to_print w = (Ok (ys, Some infos), w') ->
  Forall (fun r => (length (info_select_new_ys r)
                    <= Z.to_nat (n_select_sample args))%nat) infos /\
  (infos <> [] -> (length ys <= Z.to_nat (n_select_sample args))%nat).
Proof.
  intros Hn H.
  assert (Hall : Forall (fun r => (length (info_select_new_ys r)
                           <= Z.to_nat (n_select_sample args))%nat) infos).
  { destruct (solve_recognized _ _ _ _ _ _ _ _ H) as [-> | [_ Hsel]];
      [constructor |].
    eapply solve_records; [| exact H].
    intros step st w0 st' w0' Hstep.
    apply solve_step_inv in Hstep
      as (nested & values & select_ids & w1 & w2 & _ & _ & Hs & Hidx & Hinfos).
    eexists. split; [exact Hinfos |]. simpl.
    apply Forall2_length in Hidx. rewrite <- Hidx.
    eapply select_block_length; eassumption. }
  split; [exact Hall |]. intros Hne.
  apply solve_returns_trace in H as (infos' & Heq & _ & _ & Hys).
  injection Heq as <-. subst ys.
  destruct (length infos) as [|k] eqn:Hk; [now destruct infos |].
  simpl. destruct (infos !! k) as [r|] eqn:Hr.
  - rewrite Forall_forall in Hall. eapply Hall, list_elem_of_lookup_2, Hr.
  - apply lookup_ge_None in Hr. lia.
Qed.

(** X20: A step that starts from an empty frontier, with recognised generation,
    the value strategy and greedy selection, sends no request.  When the steps
    are printed it fails with a [ValueError], as there is nothing to unpack;
    otherwise it records empty lists and hands on an empty frontier. *)
Theorem solve_step_empty_frontier args (task : Task Input) x to_print step st w :
  l_ys st = [] ->
  method_generate args = "sample" \/ method_generate args = "propose" ->
  method_evaluate args = "value" ->
  method_select args = "greedy" ->
  solve_step model uniform args task x to_print step st w
  = if to_print
    then (Raise (ValueError "not enough values to unpack (expected 2, got 0)"), w)
    else (Ok (mkLocals [] (l_infos st ++ [mkInfo step x [] [] [] []])
                (Some []) (Some []) (Some [])), w).
Proof.
  intros Hys Hgen Hv Hs. rewrite solve_step_blocks.
  assert (Hg : generate_block model args task x step st w = (Ok (Some []), w)).
  { unfold generate_block. rewrite Hys.
    destruct Hgen as [Hg | Hg]; rewrite Hg; eval_eqb; reflexivity. }
  rewrite (bind_ok _ _ _ _ _ Hg). unfold load_local at 1.
  unfold bind at 1. unfold ret at 1. cbv zeta. simpl concat. simpl length.
  simpl seq.
  assert (He : evaluate_block model args task x st [] w = (Ok (Some []), w)).
  { unfold evaluate_block. rewrite Hv. eval_eqb. reflexivity. }
  rewrite (bind_ok _ _ _ _ _ He).
  assert (Hsel : select_block uniform args st [] (Some []) w = (Ok (Some []), w)).
  { unfold select_block. rewrite Hs. eval_eqb.
    unfold select_greedy, bind, ret. simpl. unfold py_slice_to.
    destruct (0 <=? _)%Z; now rewrite take_nil. }
  rewrite (bind_ok _ _ _ _ _ Hsel). rewrite Hys.
  destruct to_print; reflexivity.
Qed.

(** *** Every record comes from the three phases *)








End Loop.

(** * The further properties on concrete runs *)

Lemma get_samples_unrecognized_witness :
  get_samples (const_model "s") demo_task "X" "y" 3 "tot" None fresh_world
  = (Raise (ValueError "prompt_sample tot not recognized"), fresh_world).
Proof.
  apply (get_samples_unrecognized (const_model "s") demo_task "X" "y" 3 "tot" None
           fresh_world); discriminate.
Defined.

Lemma get_samples_backend_error_witness :
  fst (get_samples failing_model demo_task "X" "y" 3 "standard" None fresh_world)
  = Raise (BackendError "rate limit").
Proof.
  now rewrite (get_samples_backend_error failing_model demo_task "X" "y" 3
                 "standard" None fresh_world (BackendError "rate limit")
                 (or_introl eq_refl) eq_refl).
Defined.

Lemma get_proposals_round_trip_witness :
  exists segments w',
    get_proposals (const_model two_lines) demo_task "X" "y" fresh_world
      = (Ok (map (fun p => "y" +:+ p +:+ newline) segments), w') /\
    join_with newline segments = two_lines.
Proof.
  destruct (get_proposals_round_trip (const_model two_lines) demo_task "X" "y"
              fresh_world [two_lines] two_lines eq_refl eq_refl)
    as (segments & w' & Hrun & _ & _ & Hjoin).
  now exists segments, w'.
Defined.

Lemma get_proposals_no_completion_witness :
  fst (get_proposals silent_model demo_task "X" "y" fresh_world)
  = Raise (IndexError "list index out of range").
Proof.
  now rewrite (get_proposals_no_completion silent_model demo_task "X" "y"
                 fresh_world eq_refl).
Defined.

Lemma get_values_idempotent_witness :
  exists values w1,
    get_values (const_model "ok") demo_task "X" ["A"; "A"; "B"] 2 true fresh_world
      = (Ok values, w1) /\
    get_values (const_model "ok") demo_task "X" ["A"; "A"; "B"] 7 true w1
      = (Ok values, w1).
Proof.
  destruct (get_values (const_model "ok") demo_task "X" ["A"; "A"; "B"] 2 true
              fresh_world) as [[values|e] w1] eqn:Hrun.
  - exists values, w1. split; [reflexivity |].
    exact (get_values_idempotent (const_model "ok") demo_task "X"
             ["A"; "A"; "B"] 2 7 fresh_world values w1 Hrun).
  - vm_compute in Hrun. discriminate Hrun.
Defined.

Lemma get_values_repeat_zero_witness :
  exists values w1,
    get_values (const_model "ok") demo_task "X" ["A"; "A"; "B"] 2 true fresh_world
      = (Ok values, w1) /\
    values !! 1%nat = Some 0%Q.
Proof.
  destruct (get_values (const_model "ok") demo_task "X" ["A"; "A"; "B"] 2 true
              fresh_world) as [[values|e] w1] eqn:Hrun.
  - exists values, w1. split; [reflexivity |].
    apply (get_values_repeat_zero (const_model "ok") demo_task "X"
             ["A"; "A"; "B"] 2 true fresh_world values w1 1 "A" Hrun eq_refl).
    apply list_elem_of_here.
  - vm_compute in Hrun. discriminate Hrun.
Defined.

Lemma select_greedy_short_values_witness :
  select_greedy [0; 1; 2]%nat (Some [3; 1]%Q) 2 fresh_world
  = (Raise (IndexError "list index out of range"), fresh_world).
Proof.
  apply (select_greedy_short_values ["a"; "b"; "c"] [3; 1]%Q 2 fresh_world).
  simpl. lia.
Defined.


Lemma solve_cache_grows_witness :
  value_cache (snd (solve (const_model two_lines) half demo_args demo_task 0 true
                      cached_world)) !! "V:X|old" = Some 5%Q.
Proof.
  apply (solve_cache_grows (const_model two_lines) half demo_args demo_task 0 true
           cached_world "V:X|old" 5%Q).
  apply lookup_insert_eq.
Defined.

Lemma solve_cache_untouched_witness :
  value_cache (snd (solve (const_model two_lines) half vote_args demo_task 0 true
                      cached_world)) = value_cache cached_world.
Proof.
  apply (solve_cache_untouched (const_model two_lines) half vote_args demo_task 0
           true cached_world).
  discriminate.
Defined.

Lemma solve_draws_nothing_witness :
  rng_used (snd (solve (const_model two_lines) half demo_args demo_task 0 true
                   fresh_world)) = 0%nat.
Proof.
  apply (solve_draws_nothing (const_model two_lines) half demo_args demo_task 0
           true fresh_world).
  discriminate.
Defined.

Lemma demo_run :
  exists ys infos w',
    solve (const_model two_lines) half demo_args demo_task 0 true fresh_world
    = (Ok (ys, Some infos), w').
Proof.
  destruct (solve_ok (const_model two_lines) half (const_model_honours two_lines)
              demo_args demo_task 0 true fresh_world demo_runs_through)
    as ([ys info] & w' & Hrun).
  destruct (solve_returns_trace _ _ _ _ _ _ _ _ _ _ Hrun) as (infos & -> & _).
  now exists ys, infos, w'.
Defined.

Lemma solve_expansions_extend_witness :
  exists ys infos w',
    solve (const_model two_lines) half demo_args demo_task 0 true fresh_world
      = (Ok (ys, Some infos), w') /\
    Forall (fun r =>
              Forall (fun c => exists y, y ∈ info_ys r /\ String.prefix y c = true)
                (info_new_ys r)) infos.
Proof.
  destruct demo_run as (ys & infos & w' & Hrun).
  exists ys, infos, w'. split; [exact Hrun |].
  exact (solve_expansions_extend _ _ _ _ _ _ _ _ _ _ Hrun).
Defined.

Lemma solve_scores_per_candidate_witness :
  exists ys infos w',
    solve (const_model two_lines) half demo_args demo_task 0 true fresh_world
      = (Ok (ys, Some infos), w') /\
    Forall (fun r => length (info_values r) = length (info_new_ys r)) infos.
Proof.
  destruct demo_run as (ys & infos & w' & Hrun).
  exists ys, infos, w'. split; [exact Hrun |].
  exact (solve_scores_per_candidate (const_model two_lines) half demo_args
           demo_task 0 true fresh_world ys infos w' eq_refl Hrun).
Defined.

Lemma solve_frontier_bounded_witness :
  exists ys infos w',
    solve (const_model two_lines) half demo_args demo_task 0 true fresh_world
      = (Ok (ys, Some infos), w') /\
    Forall (fun r => (length (info_select_new_ys r) <= 1)%nat) infos.
Proof.
  destruct demo_run as (ys & infos & w' & Hrun).
  exists ys, infos, w'. split; [exact Hrun |].
  refine (proj1 (solve_frontier_bounded (const_model two_lines) half demo_args
                   demo_task 0 true fresh_world ys infos w' _ Hrun)).
  discriminate.
Defined.

Lemma solve_step_empty_frontier_witness :
  solve_step (const_model two_lines) half demo_args demo_task "X" true 1
    empty_frontier fresh_world
  = (Raise (ValueError "not enough values to unpack (expected 2, got 0)"),
     fresh_world).
Proof.
  exact (solve_step_empty_frontier (const_model two_lines) half demo_args
           demo_task "X" true 1 empty_frontier fresh_world eq_refl
           (or_intror eq_refl) eq_refl eq_refl).
Defined.

